(** * mypipe: the ring-buffer pipe character device of [pipe.c]

    A shallow embedding of [pipe_open], [pipe_read], [pipe_write] and
    [pipe_release], and the properties of the channel they implement.

    One call of a file operation is a function of the channel it finds
    ([struct pipe]), its arguments, and an environment script [env] that
    fixes everything the call does not decide itself: whether a signal
    interrupts a lock acquisition or a sleep, whether [kzalloc] fails, how
    many bytes each user copy leaves uncopied, and in which state the other
    sessions have left the channel each time the call gets the lock back.
    The result is what the call did: its return value, the channel it
    leaves, the bytes stored in the caller's buffer, and the trace of lock,
    wait-queue and copy events in program order. *)

From Stdlib Require Import ZArith List Bool Lia.
From Stdlib Require Import Strings.Byte.
Import ListNotations.
Local Open Scope Z_scope.

(** ** C integer conversions

    [int] is 32 bits, [size_t] and [ssize_t] are 64 bits; the kernel is built
    with wrapping signed arithmetic. *)

Module CInt.

Definition wrap (w x : Z) : Z := (x + 2 ^ (w - 1)) mod 2 ^ w - 2 ^ (w - 1).

Definition to_int (x : Z) : Z := wrap 32 x.
Definition to_ssize_t (x : Z) : Z := wrap 64 x.
Definition to_size_t (x : Z) : Z := x mod 2 ^ 64.

Definition INT_MAX : Z := 2 ^ 31 - 1.
Definition SIZE_MAX : Z := 2 ^ 64 - 1.

End CInt.
Import CInt.

(** ** Kernel constants used by the driver (include/uapi, generic values) *)

Definition EAGAIN : Z := 11.
Definition ENOMEM : Z := 12.
Definition EFAULT : Z := 14.
Definition ERESTARTSYS : Z := 512.

Definition FMODE_READ : Z := 1.
Definition FMODE_WRITE : Z := 2.
Definition O_NONBLOCK : Z := 2048.

(** ** Data model *)

(** [struct pipe], without the lock, the queues and the cdev, which carry no
    data of their own: they show up as events. [p_rbuf] is [None] for NULL,
    otherwise the bytes of the allocation. *)
Record pipe : Type := mkpipe {
  p_rbuf : option (list byte);
  p_readp : Z;
  p_writep : Z;
  p_count : Z;
  p_size : Z;
  p_nr_readers : Z;
  p_nr_writers : Z
}.

(** The two fields of [struct file] the driver looks at. *)
Record file : Type := mkfile {
  f_mode : Z;
  f_flags : Z
}.

Definition has_flag (bits flag : Z) : bool := negb (Z.land bits flag =? 0).

Inductive waitq : Type := p_readq | p_writeq.

Definition waitq_eqb (a b : waitq) : bool :=
  match a, b with
  | p_readq, p_readq | p_writeq, p_writeq => true
  | _, _ => false
  end.

Inductive event : Type :=
| MutexLock                       (* the lock was taken *)
| LockSignal                      (* mutex_lock_interruptible returned non-zero *)
| MutexUnlock
| WaitEvent (q : waitq)           (* wait_event_interruptible on q *)
| WakeUp (q : waitq)              (* wake_up_interruptible on q *)
| CopyToUser (off n : Z)          (* copy_to_user (_, p_rbuf + off, n) *)
| CopyFromUser (off uoff n : Z)   (* copy_from_user (p_rbuf + off, buf + uoff, n) *)
| Faulted (left : Z)              (* the copy just made returned left <> 0 *)
| Kzalloc (n : Z)
| Kfree.

(** What one sleep of the call ends with. *)
Inductive wake : Type :=
| Signal                (* wait_event_interruptible returned non-zero *)
| SignalLock            (* woken, then interrupted while taking the lock again *)
| Resume (p : pipe).    (* lock taken again; p is the channel as the others left it *)

Record env : Type := mkenv {
  lock_intr : bool;     (* the first mutex_lock_interruptible is interrupted *)
  alloc_fail : bool;    (* kzalloc returns NULL *)
  wakes : list wake;    (* one entry per sleep, in order *)
  top_left : Z;         (* bytes the first user copy leaves uncopied *)
  bot_left : Z          (* bytes the second user copy leaves uncopied *)
}.

Inductive outcome : Type :=
| Returned (ret : Z) (p : pipe) (out : list byte)
    (* the call returned ret, left the channel p, stored out in the caller's buffer *)
| Asleep (q : waitq) (p : pipe)
    (* the script ended while the call was sleeping on q *)
| BadAccess (off n : Z).
    (* a copy of n > 0 bytes at p_rbuf + off leaves the allocation: undefined *)

Definition result : Type := outcome * list event.

(** [true] when the trace leaves the lock held, starting from [held]. *)
Fixpoint lock_held (held : bool) (tr : list event) : bool :=
  match tr with
  | [] => held
  | MutexLock :: t => lock_held true t
  | MutexUnlock :: t => lock_held false t
  | _ :: t => lock_held held t
  end.

(** Channel states handed back to the call by the other sessions. *)
Fixpoint resumed (ws : list wake) : list pipe :=
  match ws with
  | [] => []
  | Resume p :: t => p :: resumed t
  | _ :: t => resumed t
  end.

(** ** Memory and the user-copy primitives *)

Definition len (b : list byte) : Z := Z.of_nat (length b).

Definition load (b : list byte) (off n : Z) : list byte :=
  firstn (Z.to_nat n) (skipn (Z.to_nat off) b).

Definition store (b : list byte) (off : Z) (d : list byte) : list byte :=
  firstn (Z.to_nat off) b ++ d ++ skipn (Z.to_nat off + length d) b.

Definition inside (b : list byte) (off n : Z) : bool :=
  (0 <=? off) && (off + n <=? len b).

(** The value a user copy of [n] bytes returns when the environment would
    leave [left] bytes uncopied: always within [0, n]. *)
Definition uncopied (left n : Z) : Z := Z.max 0 (Z.min left n).

Inductive copied (A : Type) : Type :=
| Copied (a : A)
| Partial (left : Z) (a : A)
| Stray.
Arguments Copied {A} a.
Arguments Partial {A} left a.
Arguments Stray {A}.

(** [copy_to_user (buf, rbuf + off, n)]: the bytes that reach the caller.
    A copy of no bytes touches nothing and returns 0. *)
Definition copy_to_user (left : Z) (rbuf : option (list byte)) (off n : Z)
  : copied (list byte) :=
  if n =? 0 then Copied []
  else match rbuf with
       | None => Stray
       | Some b =>
           if inside b off n then
             let r := uncopied left n in
             if r =? 0 then Copied (load b off n)
             else Partial r (load b off (n - r))
           else Stray
       end.

(** [copy_from_user (rbuf + off, buf + uoff, n)] where the caller's readable
    memory at [buf] holds [src]: the allocation afterwards. Bytes past the
    end of [src] cannot be read; what is not copied is zero-filled in the
    destination, as the primitive documents. *)
Definition copy_from_user (left : Z) (src : list byte) (uoff : Z)
           (rbuf : option (list byte)) (off n : Z)
  : copied (option (list byte)) :=
  if n =? 0 then Copied rbuf
  else match rbuf with
       | None => Stray
       | Some b =>
           if inside b off n then
             let avail := Z.max 0 (Z.min n (len src - uoff)) in
             let r := Z.max (uncopied left n) (n - avail) in
             if r =? 0 then Copied (Some (store b off (load src uoff n)))
             else Partial r (Some (store b off (load src uoff (n - r)
                                                ++ repeat x00 (Z.to_nat r))))
           else Stray
       end.

(** [kzalloc (n, GFP_KERNEL)] with [n] a [size_t]. *)
Definition kzalloc (fail : bool) (n : Z) : option (list byte) :=
  if fail || (2 ^ 63 <=? n) then None else Some (repeat x00 (Z.to_nat n)).

(** ** Field updates *)

Definition set_rbuf (b : option (list byte)) (p : pipe) : pipe :=
  mkpipe b (p_readp p) (p_writep p) (p_count p) (p_size p)
         (p_nr_readers p) (p_nr_writers p).
Definition set_readp (v : Z) (p : pipe) : pipe :=
  mkpipe (p_rbuf p) v (p_writep p) (p_count p) (p_size p)
         (p_nr_readers p) (p_nr_writers p).
Definition set_writep (v : Z) (p : pipe) : pipe :=
  mkpipe (p_rbuf p) (p_readp p) v (p_count p) (p_size p)
         (p_nr_readers p) (p_nr_writers p).
Definition set_count (v : Z) (p : pipe) : pipe :=
  mkpipe (p_rbuf p) (p_readp p) (p_writep p) v (p_size p)
         (p_nr_readers p) (p_nr_writers p).

(** ** pipe_open *)

Definition pipe_open (pipe_size : Z) (filp : file) (e : env) (p : pipe) : result :=
  if lock_intr e then (Returned (- ERESTARTSYS) p [], [LockSignal])
  else
    let alloc :=
      match p_rbuf p with
      | Some b => Some (b, [])
      | None =>
          match kzalloc (alloc_fail e) (to_size_t pipe_size) with
          | Some b => Some (b, [Kzalloc (to_size_t pipe_size)])
          | None => None
          end
      end in
    match alloc with
    | None =>
        (Returned (- ENOMEM) p [],
         [MutexLock; Kzalloc (to_size_t pipe_size); MutexUnlock])
    | Some (b, tr) =>
        let readers := if has_flag (f_mode filp) FMODE_READ
                       then to_int (p_nr_readers p + 1) else p_nr_readers p in
        let writers := if has_flag (f_mode filp) FMODE_WRITE
                       then to_int (p_nr_writers p + 1) else p_nr_writers p in
        (Returned 0 (mkpipe (Some b) 0 0 0 pipe_size readers writers) [],
         MutexLock :: tr ++ [MutexUnlock])
    end.

(** ** pipe_read *)

(** The loop [while (!pipe->p_count)], entered with the lock held: either the
    call goes on with the channel it then holds, or it ends there. *)
Fixpoint read_wait (nonblock : bool) (ws : list wake) (p : pipe)
  : (pipe + outcome) * list event :=
  if negb (p_count p =? 0) then (inl p, [])
  else if nonblock then (inr (Returned (- EAGAIN) p []), [MutexUnlock])
  else match ws with
       | [] => (inr (Asleep p_readq p), [MutexUnlock; WaitEvent p_readq])
       | Signal :: _ =>
           (inr (Returned (- ERESTARTSYS) p []),
            [MutexUnlock; WaitEvent p_readq])
       | SignalLock :: _ =>
           (inr (Returned (- ERESTARTSYS) p []),
            [MutexUnlock; WaitEvent p_readq; LockSignal])
       | Resume p' :: ws' =>
           let (r, tr) := read_wait nonblock ws' p' in
           (r, MutexUnlock :: WaitEvent p_readq :: MutexLock :: tr)
       end.

(** The common exit of a read that copied [count] bytes [out], with the
    read pointer already moved in [p]. *)
Definition read_done (count : Z) (tr : list event) (out : list byte) (p : pipe)
  : result :=
  (Returned (to_ssize_t count) (set_count (to_int (p_count p - count)) p) out,
   tr ++ [MutexUnlock; WakeUp p_writeq]).

(** The label [fail]. *)
Definition xfer_fail (tr : list event) (out : list byte) (p : pipe) : result :=
  (Returned (- EFAULT) p out, tr ++ [MutexUnlock]).

(** From "okay, we have data to read" on, with the lock held. *)
Definition read_xfer (e : env) (count : Z) (p : pipe) : result :=
  let count := if to_size_t (p_count p) <? count
               then to_size_t (p_count p) else count in
  if p_readp p <? p_writep p then
    let ev := CopyToUser (p_readp p) count in
    match copy_to_user (top_left e) (p_rbuf p) (p_readp p) count with
    | Stray => (BadAccess (p_readp p) count, [ev])
    | Partial r out => xfer_fail [ev; Faulted r] out p
    | Copied out =>
        let rp := to_int (p_readp p + count) in
        let rp := if rp =? p_size p then 0 else rp in
        read_done count [ev] out (set_readp rp p)
    end
  else
    let topcount := to_ssize_t (to_int (p_size p - p_readp p)) in
    let topcount := if count <? to_size_t topcount
                    then to_ssize_t count else topcount in
    let ev1 := CopyToUser (p_readp p) (to_size_t topcount) in
    match copy_to_user (top_left e) (p_rbuf p) (p_readp p)
                       (to_size_t topcount) with
    | Stray => (BadAccess (p_readp p) (to_size_t topcount), [ev1])
    | Partial r out => xfer_fail [ev1; Faulted r] out p
    | Copied out1 =>
        let rest := to_size_t (count - topcount) in
        if rest =? 0 then
          read_done count [ev1] out1 (set_readp (to_int rest) p)
        else
          let ev2 := CopyToUser 0 rest in
          match copy_to_user (bot_left e) (p_rbuf p) 0 rest with
          | Stray => (BadAccess 0 rest, [ev1; ev2])
          | Partial r out2 => xfer_fail [ev1; ev2; Faulted r] (out1 ++ out2) p
          | Copied out2 =>
              read_done count [ev1; ev2] (out1 ++ out2)
                        (set_readp (to_int rest) p)
          end
    end.

Definition pipe_read (filp : file) (count : Z) (e : env) (p : pipe) : result :=
  if lock_intr e then (Returned (- ERESTARTSYS) p [], [LockSignal])
  else
    match read_wait (has_flag (f_flags filp) O_NONBLOCK) (wakes e) p with
    | (inr o, tr) => (o, MutexLock :: tr)
    | (inl p', tr) =>
        let (o, tr') := read_xfer e count p' in
        (o, MutexLock :: tr ++ tr')
    end.

(** ** pipe_write *)

(** The loop [while (pipe->p_count == pipe->p_size)], entered with the lock
    held. The sleep is on [p_readq], as in the source. *)
Fixpoint write_wait (nonblock : bool) (ws : list wake) (p : pipe)
  : (pipe + outcome) * list event :=
  if negb (p_count p =? p_size p) then (inl p, [])
  else if nonblock then (inr (Returned (- EAGAIN) p []), [MutexUnlock])
  else match ws with
       | [] => (inr (Asleep p_readq p), [MutexUnlock; WaitEvent p_readq])
       | Signal :: _ =>
           (inr (Returned (- ERESTARTSYS) p []),
            [MutexUnlock; WaitEvent p_readq])
       | SignalLock :: _ =>
           (inr (Returned (- ERESTARTSYS) p []),
            [MutexUnlock; WaitEvent p_readq; LockSignal])
       | Resume p' :: ws' =>
           let (r, tr) := write_wait nonblock ws' p' in
           (r, MutexUnlock :: WaitEvent p_readq :: MutexLock :: tr)
       end.

(** The common exit of a write that stored [count] bytes, with the buffer
    and the write pointer already updated in [p]. *)
Definition write_done (count : Z) (tr : list event) (p : pipe) : result :=
  (Returned (to_ssize_t count) (set_count (to_int (p_count p + count)) p) [],
   tr ++ [MutexUnlock; WakeUp p_readq]).

(** From "ok, we have space to write to" on, with the lock held; [src] is
    what the caller's memory holds at [buf]. *)
Definition write_xfer (e : env) (src : list byte) (count : Z) (p : pipe)
  : result :=
  let count := if to_size_t (p_count p) <? count
               then to_size_t (p_count p) else count in
  if p_readp p <? p_writep p then
    let topcount := to_ssize_t (to_int (p_size p - p_writep p)) in
    let topcount := if count <? to_size_t topcount
                    then to_ssize_t count else topcount in
    let ev1 := CopyFromUser (p_writep p) 0 (to_size_t topcount) in
    match copy_from_user (top_left e) src 0 (p_rbuf p) (p_writep p)
                         (to_size_t topcount) with
    | Stray => (BadAccess (p_writep p) (to_size_t topcount), [ev1])
    | Partial r b => xfer_fail [ev1; Faulted r] [] (set_rbuf b p)
    | Copied b1 =>
        let rest := to_size_t (count - topcount) in
        if rest =? 0 then
          write_done count [ev1] (set_writep (to_int rest) (set_rbuf b1 p))
        else
          let ev2 := CopyFromUser 0 topcount rest in
          match copy_from_user (bot_left e) src topcount b1 0 rest with
          | Stray => (BadAccess 0 rest, [ev1; ev2])
          | Partial r b => xfer_fail [ev1; ev2; Faulted r] [] (set_rbuf b p)
          | Copied b2 =>
              write_done count [ev1; ev2]
                         (set_writep (to_int rest) (set_rbuf b2 p))
          end
    end
  else
    let ev := CopyFromUser (p_writep p) 0 count in
    match copy_from_user (top_left e) src 0 (p_rbuf p) (p_writep p) count with
    | Stray => (BadAccess (p_writep p) count, [ev])
    | Partial r b => xfer_fail [ev; Faulted r] [] (set_rbuf b p)
    | Copied b =>
        write_done count [ev]
                   (set_writep (to_int (p_writep p + count)) (set_rbuf b p))
    end.

Definition pipe_write (filp : file) (src : list byte) (count : Z) (e : env)
           (p : pipe) : result :=
  if lock_intr e then (Returned (- ERESTARTSYS) p [], [LockSignal])
  else
    match write_wait (has_flag (f_flags filp) O_NONBLOCK) (wakes e) p with
    | (inr o, tr) => (o, MutexLock :: tr)
    | (inl p', tr) =>
        let (o, tr') := write_xfer e src count p' in
        (o, MutexLock :: tr ++ tr')
    end.

(** ** pipe_release *)

Definition pipe_release (filp : file) (p : pipe) : result :=
  let readers := if has_flag (f_mode filp) FMODE_READ
                 then to_int (p_nr_readers p - 1) else p_nr_readers p in
  let writers := if has_flag (f_mode filp) FMODE_WRITE
                 then to_int (p_nr_writers p - 1) else p_nr_writers p in
  let last := to_int (readers + writers) =? 0 in
  (Returned 0
     (mkpipe (if last then None else p_rbuf p)
             (p_readp p) (p_writep p) (p_count p) (p_size p) readers writers)
     [],
   MutexLock :: (if last then [Kfree] else []) ++ [MutexUnlock]).

(** ** Concrete channels and sessions used in the examples *)

(** A pipe device as [pipe_mod_init] leaves it: zeroed by [kzalloc]. *)
Definition pipe0 : pipe := mkpipe None 0 0 0 0 0 0.

Definition reader (flags : Z) : file := mkfile FMODE_READ flags.
Definition writer (flags : Z) : file := mkfile FMODE_WRITE flags.
Definition rdwr (flags : Z) : file := mkfile (Z.lor FMODE_READ FMODE_WRITE) flags.

(** Nothing interrupts, nothing fails, nobody else touches the channel. *)
Definition quiet : env := mkenv false false [] 0 0.

Definition bytes_1_5 : list byte := [x01; x02; x03; x04; x05].

Definition opened (pipe_size : Z) : pipe :=
  mkpipe (Some (repeat x00 (Z.to_nat pipe_size))) 0 0 0 pipe_size 1 1.

(** A channel of 8 bytes that is full. *)
Definition full8 : pipe :=
  mkpipe (Some [x01; x02; x03; x04; x05; x06; x07; x08]) 0 0 8 8 1 1.

(** A channel of 8 bytes holding the four bytes at offsets 2..5. *)
Definition split8 : pipe :=
  mkpipe (Some [x00; x00; x0a; x0b; x0c; x0d; x00; x00]) 2 6 4 8 1 1.

(** A channel of 8 bytes holding seven bytes, from offset 5 round to
    offset 3: the write position is below the read position. *)
Definition wrapped8 : pipe :=
  mkpipe (Some [x04; x05; x06; x07; x00; x01; x02; x03]) 5 4 7 8 1 1.

(** A channel of 8 bytes holding five bytes, from offset 5 round to
    offset 1. *)
Definition tail8 : pipe :=
  mkpipe (Some [x04; x05; x00; x00; x00; x01; x02; x03]) 5 2 5 8 1 1.

Definition bytes_a_g : list byte := [x0a; x0b; x0c; x0d; x0e; x0f; x10].

Definition bytes_1_4 : list byte := [x01; x02; x03; x04].

(** [split8] after the four bytes 1..4 were written to it. *)
Definition after_split8 : pipe :=
  mkpipe (Some [x03; x04; x0a; x0b; x0c; x0d; x01; x02]) 2 2 8 8 1 1.

(** ** Predicates on scripts, traces and channels *)

(** Every sleep of the script ends with the lock taken again on a channel
    that holds nothing. *)
Definition still_empty (ws : list wake) : bool :=
  forallb (fun w => match w with
                    | Resume s => p_count s =? 0
                    | _ => false
                    end) ws.

Definition is_fault (ev : event) : bool :=
  match ev with Faulted _ => true | _ => false end.

(** A user copy of the call returned non-zero. *)
Definition faulted (tr : list event) : bool := existsb is_fault tr.

(** The trace wakes the sleepers of queue [q]. *)
Definition wakes_up (q : waitq) (tr : list event) : bool :=
  existsb (fun ev => match ev with
                     | WakeUp q' => waitq_eqb q q'
                     | _ => false
                     end) tr.

(** The trace sleeps on queue [q]. *)
Definition sleeps_on (q : waitq) (tr : list event) : bool :=
  existsb (fun ev => match ev with
                     | WaitEvent q' => waitq_eqb q q'
                     | _ => false
                     end) tr.

(** Same read position, write position and byte count. *)
Definition same_cursor (a b : pipe) : Prop :=
  p_readp a = p_readp b /\ p_writep a = p_writep b /\ p_count a = p_count b.

(** The ring invariants of the data model. *)
Definition ring_inv (p : pipe) : Prop :=
  0 <= p_count p <= p_size p
  /\ 0 <= p_readp p < p_size p
  /\ 0 <= p_writep p < p_size p.

(** The channels that completed calls can leave, starting from [p0]. Each
    call runs on the channel left by the calls before it; while it sleeps the
    other sessions run, so every channel it is handed back at a wake-up is
    one they can have left. The requested count is a [size_t]; sessions that
    come and go meanwhile open with the module's [pipe_size], the size of
    [p0]. *)
Inductive reachable (p0 : pipe) : pipe -> Prop :=
| reach_start : reachable p0 p0
| reach_open : forall filp e p ret q out tr,
    reachable p0 p ->
    pipe_open (p_size p0) filp e p = (Returned ret q out, tr) ->
    reachable p0 q
| reach_release : forall filp p ret q out tr,
    reachable p0 p ->
    pipe_release filp p = (Returned ret q out, tr) ->
    reachable p0 q
| reach_read : forall filp count e p ret q out tr,
    reachable p0 p ->
    (forall s, In s (resumed (wakes e)) -> reachable p0 s) ->
    0 <= count <= SIZE_MAX ->
    pipe_read filp count e p = (Returned ret q out, tr) ->
    reachable p0 q
| reach_write : forall filp src count e p ret q out tr,
    reachable p0 p ->
    (forall s, In s (resumed (wakes e)) -> reachable p0 s) ->
    0 <= count <= SIZE_MAX ->
    pipe_write filp src count e p = (Returned ret q out, tr) ->
    reachable p0 q.

(** An empty channel of [size] bytes with both positions at 0. *)
Definition idle (size : Z) (p : pipe) : Prop :=
  p_count p = 0 /\ p_readp p = 0 /\ p_writep p = 0 /\ p_size p = size.

(** The call came to an end the model follows: it returned or it sleeps. *)
Definition finished (o : outcome) : Prop :=
  match o with
  | BadAccess _ _ => False
  | _ => True
  end.

(** Every sleep of the script ends with the lock taken again on a channel
    that is full. *)
Definition still_full (ws : list wake) : bool :=
  forallb (fun w => match w with
                    | Resume s => p_count s =? p_size s
                    | _ => false
                    end) ws.

(** The environment of a call that runs on without sleeping, with the same
    answers to its user copies. *)
Definition undisturbed (e : env) : env :=
  mkenv false (alloc_fail e) [] (top_left e) (bot_left e).

(** ** Sessions *)

(** The session was opened for reading, for writing, or for both. *)
Definition usable (filp : file) : bool :=
  has_flag (f_mode filp) FMODE_READ || has_flag (f_mode filp) FMODE_WRITE.

(** How many of the sessions [fs] were opened with the mode bit [flag]. *)
Definition opens_for (flag : Z) (fs : list file) : Z :=
  Z.of_nat (length (filter (fun f => has_flag (f_mode f) flag) fs)).

(** The life of one pipe device, from the zeroed device the module creates:
    the channel it has come to, and the sessions that are open on it.
    Sessions are opened for reading or writing, fewer than [INT_MAX] at a
    time; only an open session is released, read from or written to; while
    a call sleeps the set of open sessions does not change. *)
Inductive lifecycle (pipe_size : Z) : pipe -> list file -> Prop :=
| life_init : lifecycle pipe_size pipe0 []
| life_open : forall p fs filp e ret q out tr,
    lifecycle pipe_size p fs ->
    usable filp = true ->
    Z.of_nat (length fs) < INT_MAX ->
    pipe_open pipe_size filp e p = (Returned ret q out, tr) ->
    lifecycle pipe_size q (if ret =? 0 then filp :: fs else fs)
| life_release : forall p fs1 filp fs2 ret q out tr,
    lifecycle pipe_size p (fs1 ++ filp :: fs2) ->
    pipe_release filp p = (Returned ret q out, tr) ->
    lifecycle pipe_size q (fs1 ++ fs2)
| life_read : forall p fs filp count e ret q out tr,
    lifecycle pipe_size p fs ->
    In filp fs ->
    (forall s, In s (resumed (wakes e)) -> lifecycle pipe_size s fs) ->
    pipe_read filp count e p = (Returned ret q out, tr) ->
    lifecycle pipe_size q fs
| life_write : forall p fs filp src count e ret q out tr,
    lifecycle pipe_size p fs ->
    In filp fs ->
    (forall s, In s (resumed (wakes e)) -> lifecycle pipe_size s fs) ->
    pipe_write filp src count e p = (Returned ret q out, tr) ->
    lifecycle pipe_size q fs.

(** What the lifecycle keeps true of a channel and its open sessions. *)
Definition accounted (p : pipe) (fs : list file) : Prop :=
  p_nr_readers p = opens_for FMODE_READ fs
  /\ p_nr_writers p = opens_for FMODE_WRITE fs
  /\ (p_rbuf p = None <-> fs = []).

(** ** Module load and unload *)

Definition MINORBITS : Z := 20.

(** Conversion to [dev_t] and to [unsigned]: 32 bits. *)
Definition to_u32 (x : Z) : Z := x mod 2 ^ 32.

Definition MKDEV (ma mi : Z) : Z :=
  to_u32 (Z.lor (Z.shiftl ma MINORBITS) mi).

Definition MAJOR (dev : Z) : Z := Z.shiftr dev MINORBITS.

(** The globals of the module; [pipes] is [None] for NULL. *)
Record pipemod : Type := mkpipemod {
  nr_pipes : Z;
  pipe_major : Z;
  pipe_minor : Z;
  pipes : option (list pipe)
}.

Inductive kmsg : Type :=
| NoRegion            (* "could not request device region" *)
| NoSpace             (* "could not get space for pipes" *)
| NoAdd (i : Z).      (* "could not add pipe%d" *)

Inductive kevent : Type :=
| RegisterRegion (dev n ret : Z)
    (* register_chrdev_region (dev, n, "pipemod") returned ret *)
| AllocRegion (baseminor n dev ret : Z)
    (* alloc_chrdev_region (&dev, baseminor, n, "pipemod") returned ret
       and left dev *)
| UnregisterRegion (dev n : Z)
| KzallocPipes (bytes : Z) (ok : bool)
| KfreePipes
| InitDevice (i : Z)
    (* the two wait queues, the mutex and the cdev of pipes[i] initialised *)
| CdevAdd (i dev ret : Z)
    (* cdev_add (&pipes[i].p_cdev, dev, 1) returned ret *)
| CdevDel (i : Z)
| KfreeRbuf (i : Z) (live : bool)
    (* kfree (pipes[i].p_rbuf); live when the pointer was not NULL *)
| Printk (msg : kmsg).

(** What the kernel answers while the module loads. *)
Record kenv : Type := mkkenv {
  region_ret : Z;       (* return value of the region request *)
  region_dev : Z;       (* device number alloc_chrdev_region grants *)
  pipes_fail : bool;    (* kzalloc of the device array returns NULL *)
  add_ret : Z -> Z      (* return value of cdev_add for pipes[i] *)
}.

(** The values [i] takes in [for (i = 0; i < n; i++)]. *)
Definition indices (n : Z) : list Z := map Z.of_nat (seq 0 (Z.to_nat n)).

(** One turn of the loop of [pipe_mod_init]. *)
Definition add_device (k : kenv) (major minor i : Z) : list kevent :=
  let dev := MKDEV major (to_int (minor + i)) in
  let ret := add_ret k i in
  InitDevice i :: CdevAdd i dev ret
    :: (if ret =? 0 then [] else [Printk (NoAdd i)]).

(** [pipe_mod_init]; [sizeof_pipe] is [sizeof (struct pipe)]. *)
Definition pipe_mod_init (sizeof_pipe : Z) (k : kenv) (m : pipemod)
  : Z * pipemod * list kevent :=
  let ret := region_ret k in
  let (major, ev) :=
    if negb (pipe_major m =? 0) then
      (pipe_major m,
       RegisterRegion (MKDEV (pipe_major m) (pipe_minor m))
                      (to_u32 (nr_pipes m)) ret)
    else
      let dev := if ret =? 0 then to_u32 (region_dev k) else 0 in
      (to_int (MAJOR dev),
       AllocRegion (to_u32 (pipe_minor m)) (to_u32 (nr_pipes m)) dev ret) in
  if negb (ret =? 0) then
    (ret, mkpipemod (nr_pipes m) major (pipe_minor m) (pipes m),
     [ev; Printk NoRegion])
  else
    let bytes := to_size_t (sizeof_pipe * to_size_t (nr_pipes m)) in
    match kzalloc (pipes_fail k) bytes with
    | None =>
        (- ENOMEM, mkpipemod (nr_pipes m) major (pipe_minor m) None,
         [ev; KzallocPipes bytes false; Printk NoSpace;
          UnregisterRegion (MKDEV major (pipe_minor m))
                           (to_u32 (nr_pipes m))])
    | Some _ =>
        (0,
         mkpipemod (nr_pipes m) major (pipe_minor m)
                   (Some (repeat pipe0 (Z.to_nat (nr_pipes m)))),
         ev :: KzallocPipes bytes true
            :: flat_map (add_device k major (pipe_minor m))
                        (indices (nr_pipes m)))
    end.

(** One turn of the loop of [pipe_mod_exit]. *)
Definition del_device (ps : list pipe) (i : Z) : list kevent :=
  [CdevDel i;
   KfreeRbuf i (match p_rbuf (nth (Z.to_nat i) ps pipe0) with
                | Some _ => true
                | None => false
                end)].

(** [pipe_mod_exit]; [None] when the loop would index a device array that
    is NULL or shorter than [nr_pipes]. *)
Definition pipe_mod_exit (m : pipemod) : option (list kevent) :=
  let tail := [KfreePipes;
               UnregisterRegion (MKDEV (pipe_major m) (pipe_minor m))
                                (to_u32 (nr_pipes m))] in
  match pipes m with
  | None => if 0 <? nr_pipes m then None else Some tail
  | Some ps =>
      if Z.of_nat (length ps) <? nr_pipes m then None
      else Some (flat_map (del_device ps) (indices (nr_pipes m)) ++ tail)
  end.

(** The regions a trace obtains, and the regions it gives back. *)
Definition granted (tr : list kevent) : list (Z * Z) :=
  flat_map (fun ev => match ev with
                      | RegisterRegion dev n ret =>
                          if ret =? 0 then [(dev, n)] else []
                      | AllocRegion _ n dev ret =>
                          if ret =? 0 then [(dev, n)] else []
                      | _ => []
                      end) tr.

Definition released (tr : list kevent) : list (Z * Z) :=
  flat_map (fun ev => match ev with
                      | UnregisterRegion dev n => [(dev, n)]
                      | _ => []
                      end) tr.

(** The devices a trace passes to [cdev_add], with their numbers, and the
    devices it passes to [cdev_del]. *)
Definition added (tr : list kevent) : list (Z * Z) :=
  flat_map (fun ev => match ev with
                      | CdevAdd i dev _ => [(i, dev)]
                      | _ => []
                      end) tr.

Definition deleted (tr : list kevent) : list Z :=
  flat_map (fun ev => match ev with
                      | CdevDel i => [i]
                      | _ => []
                      end) tr.

(** The buffers a trace frees. *)
Definition freed (tr : list kevent) : list Z :=
  flat_map (fun ev => match ev with
                      | KfreeRbuf i _ => [i]
                      | _ => []
                      end) tr.

(** What [alloc_chrdev_region] grants on success: some major, with the
    base minor it was asked for. *)
Definition sane_grant (k : kenv) (m : pipemod) : Prop :=
  exists M, 0 <= M < 2 ^ 12 /\ region_dev k = MKDEV M (pipe_minor m).

(** The globals with the device array as the sessions have left it. *)
Definition with_pipes (ps : list pipe) (m : pipemod) : pipemod :=
  mkpipemod (nr_pipes m) (pipe_major m) (pipe_minor m) (Some ps).

(** The module as loaded with its default parameters. *)
Definition pipemod0 : pipemod := mkpipemod 1 0 0 None.

(** * Basic facts *)

(** ** Integer conversions inside their ranges *)

Lemma to_int_id (x : Z) : - 2 ^ 31 <= x <= INT_MAX -> to_int x = x.
Proof.
  unfold to_int, wrap, INT_MAX. intros H.
  change (2 ^ (32 - 1)) with (2 ^ 31) in *.
  rewrite Z.mod_small; lia.
Qed.

Lemma to_ssize_t_id (x : Z) : - 2 ^ 63 <= x < 2 ^ 63 -> to_ssize_t x = x.
Proof.
  unfold to_ssize_t, wrap. intros H.
  change (2 ^ (64 - 1)) with (2 ^ 63) in *.
  rewrite Z.mod_small; lia.
Qed.

Lemma to_size_t_id (x : Z) : 0 <= x < 2 ^ 64 -> to_size_t x = x.
Proof. unfold to_size_t. intros H. apply Z.mod_small; lia. Qed.

Lemma to_size_t_range (x : Z) : 0 <= to_size_t x < 2 ^ 64.
Proof. unfold to_size_t. apply Z.mod_pos_bound. lia. Qed.

Lemma to_ssize_t_range (x : Z) : - 2 ^ 63 <= to_ssize_t x < 2 ^ 63.
Proof.
  unfold to_ssize_t, wrap. change (2 ^ (64 - 1)) with (2 ^ 63).
  pose proof (Z.mod_pos_bound (x + 2 ^ 63) (2 ^ 64)). lia.
Qed.

(** A [size_t] that went through [ssize_t] and back is unchanged. *)
Lemma to_size_t_ssize_t (x : Z) : to_size_t (to_ssize_t x) = to_size_t x.
Proof.
  unfold to_size_t, to_ssize_t, wrap. change (2 ^ (64 - 1)) with (2 ^ 63).
  rewrite (Z.mod_eq (x + 2 ^ 63) (2 ^ 64)) by lia.
  replace (x + 2 ^ 63 - 2 ^ 64 * ((x + 2 ^ 63) / 2 ^ 64) - 2 ^ 63)
    with (x + (- ((x + 2 ^ 63) / 2 ^ 64)) * 2 ^ 64) by ring.
  apply Z.mod_add. lia.
Qed.

Ltac int_ranges :=
  unfold INT_MAX, SIZE_MAX in *;
  change (2 ^ 31) with 2147483648 in *;
  change (2 ^ 63) with 9223372036854775808 in *;
  change (2 ^ 64) with 18446744073709551616 in *.

(** ** The wait loops, one step unfolded *)

Lemma read_wait_eq (nonblock : bool) (ws : list wake) (p : pipe) :
  read_wait nonblock ws p =
  if negb (p_count p =? 0) then (inl p, [])
  else if nonblock then (inr (Returned (- EAGAIN) p []), [MutexUnlock])
  else match ws with
       | [] => (inr (Asleep p_readq p), [MutexUnlock; WaitEvent p_readq])
       | Signal :: _ =>
           (inr (Returned (- ERESTARTSYS) p []),
            [MutexUnlock; WaitEvent p_readq])
       | SignalLock :: _ =>
           (inr (Returned (- ERESTARTSYS) p []),
            [MutexUnlock; WaitEvent p_readq; LockSignal])
       | Resume p' :: ws' =>
           let (r, tr) := read_wait nonblock ws' p' in
           (r, MutexUnlock :: WaitEvent p_readq :: MutexLock :: tr)
       end.
Proof. destruct ws; reflexivity. Qed.

Lemma write_wait_eq (nonblock : bool) (ws : list wake) (p : pipe) :
  write_wait nonblock ws p =
  if negb (p_count p =? p_size p) then (inl p, [])
  else if nonblock then (inr (Returned (- EAGAIN) p []), [MutexUnlock])
  else match ws with
       | [] => (inr (Asleep p_readq p), [MutexUnlock; WaitEvent p_readq])
       | Signal :: _ =>
           (inr (Returned (- ERESTARTSYS) p []),
            [MutexUnlock; WaitEvent p_readq])
       | SignalLock :: _ =>
           (inr (Returned (- ERESTARTSYS) p []),
            [MutexUnlock; WaitEvent p_readq; LockSignal])
       | Resume p' :: ws' =>
           let (r, tr) := write_wait nonblock ws' p' in
           (r, MutexUnlock :: WaitEvent p_readq :: MutexLock :: tr)
       end.
Proof. destruct ws; reflexivity. Qed.

(** A channel that holds something is read at once. *)
Lemma read_wait_ready (nonblock : bool) (ws : list wake) (p : pipe) :
  p_count p <> 0 -> read_wait nonblock ws p = (inl p, []).
Proof.
  intros H. rewrite read_wait_eq.
  destruct (Z.eqb_spec (p_count p) 0); [contradiction | reflexivity].
Qed.

(** A channel that is not full is written at once. *)
Lemma write_wait_ready (nonblock : bool) (ws : list wake) (p : pipe) :
  p_count p <> p_size p -> write_wait nonblock ws p = (inl p, []).
Proof.
  intros H. rewrite write_wait_eq.
  destruct (Z.eqb_spec (p_count p) (p_size p)); [contradiction | reflexivity].
Qed.

(** The state a wait loop goes on with is the one the call was entered with
    or one handed back by the other sessions. *)
Lemma read_wait_entry (nonblock : bool) (ws : list wake) :
  forall p p0 tr,
    read_wait nonblock ws p = (inl p0, tr) ->
    (p0 = p \/ In p0 (resumed ws)) /\ p_count p0 <> 0.
Proof.
  induction ws as [|w ws IH]; intros p p0 tr; rewrite read_wait_eq;
    destruct (Z.eqb_spec (p_count p) 0) as [E|E]; simpl;
    try (intros H; inversion H; subst; auto; fail);
    destruct nonblock; try discriminate.
  destruct w; try discriminate.
  destruct (read_wait false ws p1) as [r tr1] eqn:W.
  intros H; inversion H; subst.
  destruct (IH _ _ _ W) as [[->|HI] Hc]; simpl; auto.
Qed.

Lemma write_wait_entry (nonblock : bool) (ws : list wake) :
  forall p p0 tr,
    write_wait nonblock ws p = (inl p0, tr) ->
    (p0 = p \/ In p0 (resumed ws)) /\ p_count p0 <> p_size p0.
Proof.
  induction ws as [|w ws IH]; intros p p0 tr; rewrite write_wait_eq;
    destruct (Z.eqb_spec (p_count p) (p_size p)) as [E|E]; simpl;
    try (intros H; inversion H; subst; auto; fail);
    destruct nonblock; try discriminate.
  destruct w; try discriminate.
  destruct (write_wait false ws p1) as [r tr1] eqn:W.
  intros H; inversion H; subst.
  destruct (IH _ _ _ W) as [[->|HI] Hc]; simpl; auto.
Qed.

(** A wait loop that ends the call ends it with an error or asleep. *)
Lemma read_wait_stop_negative (nonblock : bool) (ws : list wake) :
  forall p ret q out tr,
    read_wait nonblock ws p = (inr (Returned ret q out), tr) -> ret < 0.
Proof.
  induction ws as [|w ws IH]; intros p ret q out tr; rewrite read_wait_eq;
    destruct (negb (p_count p =? 0)); try discriminate;
    destruct nonblock;
    try (intros H; inversion H; subst; unfold EAGAIN; lia);
    try discriminate.
  destruct w;
    try (intros H; inversion H; subst; unfold ERESTARTSYS; lia).
  destruct (read_wait false ws p0) as [r tr1] eqn:W.
  intros H; inversion H; subst. eapply IH; eauto.
Qed.

Lemma write_wait_stop_negative (nonblock : bool) (ws : list wake) :
  forall p ret q out tr,
    write_wait nonblock ws p = (inr (Returned ret q out), tr) -> ret < 0.
Proof.
  induction ws as [|w ws IH]; intros p ret q out tr; rewrite write_wait_eq;
    destruct (negb (p_count p =? p_size p)); try discriminate;
    destruct nonblock;
    try (intros H; inversion H; subst; unfold EAGAIN; lia);
    try discriminate.
  destruct w;
    try (intros H; inversion H; subst; unfold ERESTARTSYS; lia).
  destruct (write_wait false ws p0) as [r tr1] eqn:W.
  intros H; inversion H; subst. eapply IH; eauto.
Qed.

(** * Would-block and waiting *)

(** C7. A non-blocking read that finds [p_count == 0] returns [-EAGAIN], a
    non-blocking write that finds [p_count == p_size] returns [-EAGAIN]; both
    have only taken and released the lock, and the channel they leave is the
    one they found, field for field. The lock is the one thing before the
    test: the call must have obtained it. *)
Theorem nonblocking_calls_would_block :
  forall (filp : file) (e : env) (p : pipe),
    lock_intr e = false ->
    has_flag (f_flags filp) O_NONBLOCK = true ->
    (forall count,
        p_count p = 0 ->
        pipe_read filp count e p =
          (Returned (- EAGAIN) p [], [MutexLock; MutexUnlock]))
    /\
    (forall src count,
        p_count p = p_size p ->
        pipe_write filp src count e p =
          (Returned (- EAGAIN) p [], [MutexLock; MutexUnlock])).
Proof.
  intros filp e p HL HN. split.
  - intros count HC. unfold pipe_read. rewrite HL, HN, read_wait_eq.
    rewrite HC. reflexivity.
  - intros src count HC. unfold pipe_write. rewrite HL, HN, write_wait_eq.
    rewrite HC, Z.eqb_refl. reflexivity.
Qed.

Lemma nonblocking_calls_would_block_witness :
  pipe_read (reader O_NONBLOCK) 5 quiet (opened 8) =
    (Returned (- EAGAIN) (opened 8) [], [MutexLock; MutexUnlock])
  /\ pipe_write (writer O_NONBLOCK) bytes_1_5 5 quiet full8 =
    (Returned (- EAGAIN) full8 [], [MutexLock; MutexUnlock]).
Proof.
  destruct (nonblocking_calls_would_block (reader O_NONBLOCK) quiet (opened 8)
              eq_refl eq_refl) as [HR _].
  destruct (nonblocking_calls_would_block (writer O_NONBLOCK) quiet full8
              eq_refl eq_refl) as [_ HW].
  split.
  - apply HR. reflexivity.
  - apply HW. reflexivity.
Defined.

(** A blocking read of an empty channel whose every wake-up finds the channel
    still empty is asleep on [p_readq] when the script ends. *)
Lemma read_wait_still_empty (ws : list wake) :
  forall p,
    p_count p = 0 ->
    still_empty ws = true ->
    exists s tr,
      read_wait false ws p = (inr (Asleep p_readq s), tr) /\ p_count s = 0.
Proof.
  induction ws as [|w ws IH]; intros p HC HS; rewrite read_wait_eq, HC; simpl.
  - eauto.
  - destruct w; simpl in HS; try discriminate.
    apply andb_prop in HS. destruct HS as [H1 H2].
    apply Z.eqb_eq in H1.
    destruct (IH p0 H1 H2) as (s & tr & -> & Hs). eauto.
Qed.

(** A blocking read of an empty channel starts by sleeping on [p_readq]. *)
Lemma read_wait_sleeps_first (ws : list wake) (p : pipe) :
  p_count p = 0 ->
  exists r tr,
    read_wait false ws p = (r, MutexUnlock :: WaitEvent p_readq :: tr).
Proof.
  intros HC. rewrite read_wait_eq, HC. simpl.
  destruct ws as [|[| |s] ws]; eauto.
  destruct (read_wait false ws s) as [r tr]. eauto.
Qed.

(** C10. A read of 0 bytes on an empty channel does not return 0 at once:
    the wait loop comes before [count] is looked at. A non-blocking session
    gets [-EAGAIN]. A blocking session releases the lock and sleeps on
    [p_readq] first; it stays asleep as long as every wake-up finds the
    channel empty, and it can only return a byte count after it was handed
    a channel with [p_count <> 0]. *)
Theorem empty_read_of_zero_bytes_waits :
  forall (filp : file) (e : env) (p : pipe),
    lock_intr e = false ->
    p_count p = 0 ->
    (has_flag (f_flags filp) O_NONBLOCK = true ->
     pipe_read filp 0 e p =
       (Returned (- EAGAIN) p [], [MutexLock; MutexUnlock]))
    /\
    (has_flag (f_flags filp) O_NONBLOCK = false ->
     (exists o tr,
         pipe_read filp 0 e p =
           (o, MutexLock :: MutexUnlock :: WaitEvent p_readq :: tr))
     /\ (still_empty (wakes e) = true ->
         exists s tr, pipe_read filp 0 e p = (Asleep p_readq s, tr))
     /\ (forall ret q out tr,
            pipe_read filp 0 e p = (Returned ret q out, tr) ->
            0 <= ret ->
            exists s, In s (resumed (wakes e)) /\ p_count s <> 0)).
Proof.
  intros filp e p HL HC. split.
  - intros HN. unfold pipe_read. rewrite HL, HN, read_wait_eq, HC. reflexivity.
  - intros HN. unfold pipe_read. rewrite HL, HN. repeat split.
    + destruct (read_wait_sleeps_first (wakes e) p HC) as (r & tr & ->).
      destruct r as [p0|o]; [|eauto].
      destruct (read_xfer e 0 p0) as [o tr']. simpl. eauto.
    + intros HS.
      destruct (read_wait_still_empty (wakes e) p HC HS) as (s & tr & -> & _).
      eauto.
    + intros ret q out tr.
      destruct (read_wait false (wakes e) p) as [[p0|o] tr0] eqn:W.
      * destruct (read_wait_entry _ _ _ _ _ W) as [[->|HI] Hc];
          [contradiction|]. eauto.
      * intros H Hret. inversion H; subst.
        apply read_wait_stop_negative in W. lia.
Qed.

Lemma empty_read_of_zero_bytes_waits_witness :
  pipe_read (reader O_NONBLOCK) 0 quiet (opened 8) =
    (Returned (- EAGAIN) (opened 8) [], [MutexLock; MutexUnlock])
  /\ exists s tr,
      pipe_read (reader 0) 0 (mkenv false false [Resume (opened 8)] 0 0)
                (opened 8) = (Asleep p_readq s, tr).
Proof.
  split.
  - apply (empty_read_of_zero_bytes_waits (reader O_NONBLOCK) quiet (opened 8));
      reflexivity.
  - apply (empty_read_of_zero_bytes_waits (reader 0)
             (mkenv false false [Resume (opened 8)] 0 0) (opened 8));
      reflexivity.
Defined.

(** * The write-side clamp *)

(** The request after [if (count > pipe->p_count) count = pipe->p_count] on
    a channel that holds nothing. *)
Lemma clamp_to_empty (count : Z) :
  0 <= count -> (if to_size_t 0 <? count then to_size_t 0 else count) = 0.
Proof.
  intros H. change (to_size_t 0) with 0.
  destruct (Z.ltb_spec 0 count); lia.
Qed.

(** With nothing to write the top segment is empty and so is the rest. *)
Lemma empty_top (t : Z) :
  let topcount := if 0 <? to_size_t t then to_ssize_t 0 else t in
  to_size_t topcount = 0 /\ to_size_t (0 - topcount) = 0.
Proof.
  simpl. destruct (Z.ltb_spec 0 (to_size_t t)) as [H|H].
  - split; reflexivity.
  - pose proof (to_size_t_range t) as R.
    assert (E : to_size_t t = 0) by lia. split; [exact E|].
    unfold to_size_t in *. simpl (0 - t).
    apply Z.mod_opp_l_z; [lia | exact E].
Qed.

(** C9. A write that finds [p_count == 0] on a channel of non-zero size
    (so that it gets past the full-buffer loop) stores nothing whatever
    was requested: the clamp cuts the request to the occupied count, 0. The
    only copy asked for is of 0 bytes, the call returns 0, [p_count] stays 0,
    and [p_readq] is still woken after the lock is released. On a freshly
    opened channel (both positions 0) the channel is left exactly as found. *)
Theorem write_on_empty_channel_transfers_nothing :
  forall (filp : file) (src : list byte) (count : Z) (e : env) (p : pipe),
    lock_intr e = false ->
    p_count p = 0 ->
    p_size p <> 0 ->
    0 <= count ->
    exists q,
      pipe_write filp src count e p =
        (Returned 0 q [],
         [MutexLock; CopyFromUser (p_writep p) 0 0; MutexUnlock;
          WakeUp p_readq])
      /\ p_count q = 0
      /\ p_rbuf q = p_rbuf p
      /\ p_readp q = p_readp p
      /\ p_size q = p_size p
      /\ (p_readp p = 0 -> p_writep p = 0 -> q = p).
Proof.
  intros filp src count e p HL HC HS Hc.
  unfold pipe_write. rewrite HL.
  rewrite write_wait_ready by lia.
  unfold write_xfer. rewrite HC, (clamp_to_empty count Hc).
  destruct (Z.ltb_spec (p_readp p) (p_writep p)) as [Hlt|Hge].
  - destruct (empty_top (to_ssize_t (to_int (p_size p - p_writep p))))
      as [E1 E2].
    cbv zeta in E1, E2. rewrite E1. unfold copy_from_user. simpl (0 =? 0).
    cbv iota. rewrite E2. simpl (0 =? 0). cbv iota.
    unfold write_done. simpl.
    eexists. split; [reflexivity|]. simpl. rewrite HC.
    repeat split; try reflexivity. intros; lia.
  - unfold copy_from_user. simpl (0 =? 0). cbv iota.
    unfold write_done. simpl.
    eexists. split; [reflexivity|]. simpl. rewrite HC.
    repeat split; try reflexivity.
    intros Hr Hw. destruct p; simpl in *; subst. reflexivity.
Qed.

Lemma write_on_empty_channel_transfers_nothing_witness :
  exists q,
    pipe_write (writer 0) bytes_1_5 5 quiet (opened 8) =
      (Returned 0 q [],
       [MutexLock; CopyFromUser 0 0 0; MutexUnlock; WakeUp p_readq])
    /\ p_count q = 0.
Proof.
  destruct (write_on_empty_channel_transfers_nothing
              (writer 0) bytes_1_5 5 quiet (opened 8)) as (q & H & Hq & _).
  - reflexivity.
  - reflexivity.
  - simpl. lia.
  - lia.
  - exists q. split; [exact H | exact Hq].
Defined.

(** Whatever a write returns as a byte count is the request clamped to
    the occupied count. *)
Lemma write_xfer_returns_clamp_to_count (e : env) (src : list byte)
      (count : Z) (p : pipe) :
  forall ret q out tr,
    write_xfer e src count p = (Returned ret q out, tr) ->
    0 <= ret ->
    0 <= count ->
    0 <= p_count p <= INT_MAX ->
    ret = Z.min count (p_count p).
Proof.
  intros ret q out tr H Hret Hc Hp.
  assert (E : to_size_t (p_count p) = p_count p).
  { apply to_size_t_id. int_ranges. lia. }
  assert (R : to_ssize_t (if to_size_t (p_count p) <? count
                          then to_size_t (p_count p) else count)
              = Z.min count (p_count p)).
  { rewrite E. destruct (Z.ltb_spec (p_count p) count);
      (rewrite to_ssize_t_id; [lia | int_ranges; lia]). }
  revert H. unfold write_xfer, write_done, xfer_fail. rewrite <- R.
  repeat match goal with
         | |- context [if ?c then _ else _] => destruct c
         | |- context [match copy_from_user ?a ?b ?c ?d ?f ?g with _ => _ end] =>
             destruct (copy_from_user a b c d f g)
         end;
    intros H; inversion H; subst; clear H;
    try (unfold EFAULT in Hret; lia); try reflexivity.
Qed.

(** C1. On the freshly opened channel of 8 bytes, a write of 5 bytes returns
    0 and leaves the channel empty, where the clamp to the free space gives
    [min 5 (8 - 0) = 5]: the source clamps to [p_count]. *)
Theorem write_clamps_to_occupied_count :
  fst (pipe_open 8 (rdwr 0) quiet pipe0) = Returned 0 (opened 8) []
  /\ pipe_write (rdwr 0) bytes_1_5 5 quiet (opened 8) =
       (Returned 0 (opened 8) [],
        [MutexLock; CopyFromUser 0 0 0; MutexUnlock; WakeUp p_readq])
  /\ Z.min 5 (p_size (opened 8) - p_count (opened 8)) = 5
  /\ Z.min 5 (p_count (opened 8)) = 0.
Proof. repeat split. Qed.

(** C3. On the freshly opened channel of 8 bytes, writing the five bytes
    1..5 stores none of them, and the read of 5 bytes that follows returns
    no byte: [-EAGAIN] for a non-blocking session, a sleep on [p_readq]
    otherwise. *)
Theorem write_then_read_returns_nothing :
  pipe_write (rdwr 0) bytes_1_5 (len bytes_1_5) quiet (opened 8) =
    (Returned 0 (opened 8) [],
     [MutexLock; CopyFromUser 0 0 0; MutexUnlock; WakeUp p_readq])
  /\ pipe_read (rdwr O_NONBLOCK) (len bytes_1_5) quiet (opened 8) =
       (Returned (- EAGAIN) (opened 8) [], [MutexLock; MutexUnlock])
  /\ pipe_read (rdwr 0) (len bytes_1_5) quiet (opened 8) =
       (Asleep p_readq (opened 8),
        [MutexLock; MutexUnlock; WaitEvent p_readq]).
Proof. repeat split. Qed.

(** * Wait queues *)

(** Whatever a write sleeps on, it is [p_readq]. *)
Lemma write_wait_sleeps_on_readq (nonblock : bool) (ws : list wake) :
  forall p r tr,
    write_wait nonblock ws p = (r, tr) -> sleeps_on p_writeq tr = false.
Proof.
  induction ws as [|w ws IH]; intros p r tr; rewrite write_wait_eq;
    destruct (negb (p_count p =? p_size p));
    try (intros H; inversion H; reflexivity);
    destruct nonblock; try (intros H; inversion H; reflexivity).
  destruct w; try (intros H; inversion H; reflexivity).
  destruct (write_wait false ws p0) as [r1 tr1] eqn:W.
  intros H; inversion H; subst. simpl. eapply IH; eauto.
Qed.

(** A read that returns a byte count ends with the lock released and then
    [p_writeq], and only [p_writeq], woken. *)
Lemma read_xfer_wakes_writeq (e : env) (count : Z) (p : pipe) :
  forall ret q out tr,
    read_xfer e count p = (Returned ret q out, tr) ->
    0 <= ret ->
    wakes_up p_writeq tr = true /\ wakes_up p_readq tr = false.
Proof.
  intros ret q out tr. unfold read_xfer, read_done, xfer_fail.
  repeat match goal with
         | |- context [if ?c then _ else _] => destruct c
         | |- context [match copy_to_user ?a ?b ?c ?d with _ => _ end] =>
             destruct (copy_to_user a b c d)
         end;
    intros H; inversion H; subst; clear H; intros Hret;
    try (unfold EFAULT in Hret; lia); split; reflexivity.
Qed.

Lemma sleeps_on_app (q : waitq) (a b : list event) :
  sleeps_on q (a ++ b) = sleeps_on q a || sleeps_on q b.
Proof. apply existsb_app. Qed.

Lemma wakes_up_app (q : waitq) (a b : list event) :
  wakes_up q (a ++ b) = wakes_up q a || wakes_up q b.
Proof. apply existsb_app. Qed.

Lemma write_xfer_never_sleeps (e : env) (src : list byte) (count : Z)
      (p : pipe) (q : waitq) :
  sleeps_on q (snd (write_xfer e src count p)) = false.
Proof.
  unfold write_xfer, write_done, xfer_fail.
  repeat match goal with
         | |- context [if ?c then _ else _] => destruct c
         | |- context [match copy_from_user ?a ?b ?c ?d ?f ?g with _ => _ end] =>
             destruct (copy_from_user a b c d f g)
         end; reflexivity.
Qed.

Lemma read_wait_wakes_nobody (nonblock : bool) (ws : list wake) (q : waitq) :
  forall p r tr, read_wait nonblock ws p = (r, tr) -> wakes_up q tr = false.
Proof.
  induction ws as [|w ws IH]; intros p r tr; rewrite read_wait_eq;
    destruct (negb (p_count p =? 0));
    try (intros H; inversion H; reflexivity);
    destruct nonblock; try (intros H; inversion H; reflexivity).
  destruct w; try (intros H; inversion H; reflexivity).
  destruct (read_wait false ws p0) as [r1 tr1] eqn:W.
  intros H; inversion H; subst. simpl. eapply IH; eauto.
Qed.

(** No write ever sleeps on [p_writeq]. *)
Lemma pipe_write_never_sleeps_on_writeq (filp : file) (src : list byte)
      (count : Z) (e : env) (p : pipe) :
  sleeps_on p_writeq (snd (pipe_write filp src count e p)) = false.
Proof.
  unfold pipe_write. destruct (lock_intr e); [reflexivity|].
  destruct (write_wait _ (wakes e) p) as [[p0|o] tr0] eqn:W.
  - pose proof (write_xfer_never_sleeps e src count p0 p_writeq) as X.
    destruct (write_xfer e src count p0) as [o tr1]. simpl in *.
    rewrite sleeps_on_app, (write_wait_sleeps_on_readq _ _ _ _ _ W). exact X.
  - simpl. exact (write_wait_sleeps_on_readq _ _ _ _ _ W).
Qed.

(** A read that returns a byte count wakes [p_writeq] and never [p_readq]. *)
Lemma pipe_read_wakes_only_writeq (filp : file) (count : Z) (e : env)
      (p : pipe) :
  forall ret q out tr,
    pipe_read filp count e p = (Returned ret q out, tr) ->
    0 <= ret ->
    wakes_up p_writeq tr = true /\ wakes_up p_readq tr = false.
Proof.
  intros ret q out tr. unfold pipe_read. destruct (lock_intr e).
  { intros H; inversion H; subst. unfold ERESTARTSYS. lia. }
  destruct (read_wait _ (wakes e) p) as [[p0|o] tr0] eqn:W.
  - destruct (read_xfer e count p0) as [o tr1] eqn:X.
    intros H Hret; inversion H; subst.
    destruct (read_xfer_wakes_writeq _ _ _ _ _ _ _ X Hret) as [H1 H2].
    simpl. rewrite !wakes_up_app, H1, H2.
    rewrite !(read_wait_wakes_nobody _ _ _ _ _ _ W). split; reflexivity.
  - intros H Hret; inversion H; subst.
    apply read_wait_stop_negative in W. lia.
Qed.

(** C5. The queue a successful read wakes is not the queue blocked writers
    sleep on. On the full channel of 8 bytes a blocking write sleeps on
    [p_readq]; a read of 3 bytes from that channel succeeds and, after
    releasing the lock, wakes [p_writeq] and nothing else: the sleeping
    writer is not among those woken. *)
Theorem read_does_not_wake_blocked_writer :
  pipe_write (writer 0) bytes_1_5 5 quiet full8 =
    (Asleep p_readq full8, [MutexLock; MutexUnlock; WaitEvent p_readq])
  /\ pipe_read (reader 0) 3 quiet full8 =
       (Returned 3 (set_count 5 full8) [x01; x02; x03],
        [MutexLock; CopyToUser 0 3; MutexUnlock; WakeUp p_writeq])
  /\ wakes_up p_readq (snd (pipe_read (reader 0) 3 quiet full8)) = false
  /\ sleeps_on p_writeq (snd (pipe_write (writer 0) bytes_1_5 5 quiet full8))
     = false.
Proof. repeat split; reflexivity. Qed.

(** * Copy faults *)

Lemma faulted_app (a b : list event) :
  faulted (a ++ b) = faulted a || faulted b.
Proof. apply existsb_app. Qed.

Lemma lock_held_app (a b : list event) :
  forall h, lock_held h (a ++ b) = lock_held (lock_held h a) b.
Proof.
  induction a as [|ev a IH]; intros h; [reflexivity|].
  destruct ev; simpl; apply IH.
Qed.

Lemma read_wait_not_faulted (nonblock : bool) (ws : list wake) :
  forall p r tr, read_wait nonblock ws p = (r, tr) -> faulted tr = false.
Proof.
  induction ws as [|w ws IH]; intros p r tr; rewrite read_wait_eq;
    destruct (negb (p_count p =? 0));
    try (intros H; inversion H; reflexivity);
    destruct nonblock; try (intros H; inversion H; reflexivity).
  destruct w; try (intros H; inversion H; reflexivity).
  destruct (read_wait false ws p0) as [r1 tr1] eqn:W.
  intros H; inversion H; subst. simpl. eapply IH; eauto.
Qed.

Lemma write_wait_not_faulted (nonblock : bool) (ws : list wake) :
  forall p r tr, write_wait nonblock ws p = (r, tr) -> faulted tr = false.
Proof.
  induction ws as [|w ws IH]; intros p r tr; rewrite write_wait_eq;
    destruct (negb (p_count p =? p_size p));
    try (intros H; inversion H; reflexivity);
    destruct nonblock; try (intros H; inversion H; reflexivity).
  destruct w; try (intros H; inversion H; reflexivity).
  destruct (write_wait false ws p0) as [r1 tr1] eqn:W.
  intros H; inversion H; subst. simpl. eapply IH; eauto.
Qed.

(** A faulting copy in the transfer of a read: [-EFAULT], the channel as it
    was, the lock released. *)
Lemma read_xfer_fault (e : env) (count : Z) (p : pipe) :
  forall o tr,
    read_xfer e count p = (o, tr) ->
    faulted tr = true ->
    (exists out, o = Returned (- EFAULT) p out)
    /\ forall h, lock_held h tr = false.
Proof.
  intros o tr. unfold read_xfer, read_done, xfer_fail.
  repeat match goal with
         | |- context [if ?c then _ else _] => destruct c
         | |- context [match copy_to_user ?a ?b ?c ?d with _ => _ end] =>
             destruct (copy_to_user a b c d)
         end;
    intros H; inversion H; subst; clear H; simpl; intros F;
    try discriminate; split; eauto.
Qed.

(** A faulting copy in the transfer of a write: [-EFAULT], only the bytes
    of the buffer may differ, the lock released. *)
Lemma write_xfer_fault (e : env) (src : list byte) (count : Z) (p : pipe) :
  forall o tr,
    write_xfer e src count p = (o, tr) ->
    faulted tr = true ->
    (exists b, o = Returned (- EFAULT) (set_rbuf b p) [])
    /\ forall h, lock_held h tr = false.
Proof.
  intros o tr. unfold write_xfer, write_done, xfer_fail.
  repeat match goal with
         | |- context [if ?c then _ else _] => destruct c
         | |- context [match copy_from_user ?a ?b ?c ?d ?f ?g with _ => _ end] =>
             destruct (copy_from_user a b c d f g)
         end;
    intros H; inversion H; subst; clear H; simpl; intros F;
    try discriminate; split; eauto.
Qed.

(** C6. Whenever a user copy of a read or of a write faults, on the first
    segment or on the second, the call returns [-EFAULT] with the lock
    released, and the read position, the write position and the byte count
    are those of the channel the transfer began with (the one the wait loop
    went on with). A faulted read leaves that channel untouched; a faulted
    write may have changed bytes of the buffer, nothing else. *)
Theorem copy_fault_aborts_without_advancing :
  forall (filp : file) (src : list byte) (count : Z) (e : env) (p : pipe),
    (forall o tr,
        pipe_read filp count e p = (o, tr) ->
        faulted tr = true ->
        exists p0 tr0 out,
          read_wait (has_flag (f_flags filp) O_NONBLOCK) (wakes e) p
            = (inl p0, tr0)
          /\ o = Returned (- EFAULT) p0 out
          /\ lock_held false tr = false)
    /\
    (forall o tr,
        pipe_write filp src count e p = (o, tr) ->
        faulted tr = true ->
        exists p0 tr0 q,
          write_wait (has_flag (f_flags filp) O_NONBLOCK) (wakes e) p
            = (inl p0, tr0)
          /\ o = Returned (- EFAULT) q []
          /\ lock_held false tr = false
          /\ same_cursor q p0
          /\ p_size q = p_size p0
          /\ p_nr_readers q = p_nr_readers p0
          /\ p_nr_writers q = p_nr_writers p0).
Proof.
  intros filp src count e p. split; intros o tr.
  - unfold pipe_read. destruct (lock_intr e).
    { intros H; inversion H; subst. discriminate. }
    destruct (read_wait _ (wakes e) p) as [[p0|o0] tr0] eqn:W.
    + destruct (read_xfer e count p0) as [o1 tr1] eqn:X.
      intros H; inversion H; subst. simpl.
      rewrite faulted_app, (read_wait_not_faulted _ _ _ _ _ W). simpl.
      intros F. destruct (read_xfer_fault _ _ _ _ _ X F) as [[out ->] HL].
      exists p0, tr0, out. rewrite lock_held_app. auto.
    + intros H; inversion H; subst. simpl.
      rewrite (read_wait_not_faulted _ _ _ _ _ W). discriminate.
  - unfold pipe_write. destruct (lock_intr e).
    { intros H; inversion H; subst. discriminate. }
    destruct (write_wait _ (wakes e) p) as [[p0|o0] tr0] eqn:W.
    + destruct (write_xfer e src count p0) as [o1 tr1] eqn:X.
      intros H; inversion H; subst. simpl.
      rewrite faulted_app, (write_wait_not_faulted _ _ _ _ _ W). simpl.
      intros F. destruct (write_xfer_fault _ _ _ _ _ _ X F) as [[b ->] HL].
      exists p0, tr0, (set_rbuf b p0). rewrite lock_held_app.
      unfold same_cursor. simpl. repeat split; auto.
    + intros H; inversion H; subst. simpl.
      rewrite (write_wait_not_faulted _ _ _ _ _ W). discriminate.
Qed.

Lemma copy_fault_aborts_without_advancing_witness :
  (exists p0 tr0 out,
      read_wait false [] full8 = (inl p0, tr0)
      /\ fst (pipe_read (reader 0) 3 (mkenv false false [] 2 0) full8)
         = Returned (- EFAULT) p0 out
      /\ lock_held false
           (snd (pipe_read (reader 0) 3 (mkenv false false [] 2 0) full8))
         = false)
  /\
  (exists p0 tr0 q,
      write_wait false [] split8 = (inl p0, tr0)
      /\ fst (pipe_write (writer 0) bytes_1_5 4 (mkenv false false [] 0 1)
                         split8)
         = Returned (- EFAULT) q []
      /\ same_cursor q p0).
Proof.
  split.
  - destruct (copy_fault_aborts_without_advancing
                (reader 0) [] 3 (mkenv false false [] 2 0) full8) as [HR _].
    destruct (HR _ _ (surjective_pairing _) eq_refl)
      as (p0 & tr0 & out & H1 & H2 & H3).
    exists p0, tr0, out. auto.
  - destruct (copy_fault_aborts_without_advancing
                (writer 0) bytes_1_5 4 (mkenv false false [] 0 1) split8)
      as [_ HW].
    destruct (HW _ _ (surjective_pairing _) eq_refl)
      as (p0 & tr0 & q & H1 & H2 & _ & H4 & _).
    exists p0, tr0, q. auto.
Defined.

(** * Open and release *)

(** C8. [pipe_release] decrements the reader and the writer count according
    to the modes of the session, and frees the buffer, leaving [p_rbuf] NULL,
    exactly when the counts then add up to 0; positions, byte count and size
    are not touched. After the last release, an open that gets the lock and
    the memory allocates a zeroed buffer of [pipe_size] bytes and sets
    [p_count], [p_readp] and [p_writep] to 0. The counts are those of the
    data model: non-negative [int]s. *)
Theorem release_frees_at_zero_then_open_reallocates :
  forall (filp : file) (p : pipe),
    0 <= p_nr_readers p <= INT_MAX ->
    0 <= p_nr_writers p <= INT_MAX ->
    let readers := if has_flag (f_mode filp) FMODE_READ
                   then p_nr_readers p - 1 else p_nr_readers p in
    let writers := if has_flag (f_mode filp) FMODE_WRITE
                   then p_nr_writers p - 1 else p_nr_writers p in
    exists q tr,
      pipe_release filp p = (Returned 0 q [], tr)
      /\ p_nr_readers q = readers
      /\ p_nr_writers q = writers
      /\ same_cursor q p
      /\ p_size q = p_size p
      /\ (readers + writers = 0 ->
          p_rbuf q = None /\ tr = [MutexLock; Kfree; MutexUnlock])
      /\ (readers + writers <> 0 ->
          p_rbuf q = p_rbuf p /\ tr = [MutexLock; MutexUnlock])
      /\ (readers + writers = 0 ->
          forall (pipe_size : Z) (filp' : file) (e : env),
            lock_intr e = false ->
            alloc_fail e = false ->
            0 <= pipe_size <= INT_MAX ->
            exists q',
              pipe_open pipe_size filp' e q =
                (Returned 0 q' [],
                 [MutexLock; Kzalloc pipe_size; MutexUnlock])
              /\ p_rbuf q' = Some (repeat x00 (Z.to_nat pipe_size))
              /\ p_count q' = 0
              /\ p_readp q' = 0
              /\ p_writep q' = 0
              /\ p_size q' = pipe_size).
Proof.
  intros filp p HR HW readers writers.
  assert (ER : (if has_flag (f_mode filp) FMODE_READ
                then to_int (p_nr_readers p - 1) else p_nr_readers p)
               = readers).
  { unfold readers. destruct (has_flag _ FMODE_READ); [|reflexivity].
    apply to_int_id. int_ranges. lia. }
  assert (EW : (if has_flag (f_mode filp) FMODE_WRITE
                then to_int (p_nr_writers p - 1) else p_nr_writers p)
               = writers).
  { unfold writers. destruct (has_flag _ FMODE_WRITE); [|reflexivity].
    apply to_int_id. int_ranges. lia. }
  assert (Rr : -1 <= readers <= INT_MAX).
  { unfold readers. destruct (has_flag _ FMODE_READ); lia. }
  assert (Rw : -1 <= writers <= INT_MAX).
  { unfold writers. destruct (has_flag _ FMODE_WRITE); lia. }
  assert (Z0 : to_int (readers + writers) = 0 <-> readers + writers = 0).
  { unfold to_int, wrap. change (2 ^ (32 - 1)) with (2 ^ 31).
    int_ranges. split; intros H.
    - destruct (Z_lt_le_dec (readers + writers) 2147483648) as [L|L].
      + rewrite Z.mod_small in H by lia. lia.
      + replace (readers + writers + 2147483648)
          with (readers + writers - 2147483648 + 1 * 4294967296) in H by ring.
        rewrite Z.mod_add, Z.mod_small in H by lia. lia.
    - rewrite H. reflexivity. }
  unfold pipe_release. rewrite ER, EW.
  destruct (Z.eqb_spec (to_int (readers + writers)) 0) as [E|E].
  - apply Z0 in E.
    eexists; eexists. split; [reflexivity|]. simpl. unfold same_cursor.
    repeat split; try reflexivity; try (intros; lia).
    intros _ pipe_size filp' e HL HA HP.
    unfold pipe_open. rewrite HL. simpl p_rbuf. unfold kzalloc. rewrite HA.
    assert (ES : to_size_t pipe_size = pipe_size).
    { apply to_size_t_id. int_ranges. lia. }
    rewrite ES.
    destruct (Z.leb_spec (2 ^ 63) pipe_size) as [L|L].
    { int_ranges. lia. }
    simpl. eexists. split; [reflexivity|]. simpl. repeat split.
  - assert (E' : readers + writers <> 0) by (intros H; apply E, Z0, H).
    eexists; eexists. split; [reflexivity|]. simpl. unfold same_cursor.
    repeat split; try reflexivity; intros; lia.
Qed.

Lemma release_frees_at_zero_then_open_reallocates_witness :
  exists q q',
    fst (pipe_release (rdwr 0) (set_count 5 full8)) = Returned 0 q []
    /\ p_rbuf q = None
    /\ fst (pipe_open 8 (reader 0) quiet q) = Returned 0 q' []
    /\ p_rbuf q' = Some (repeat x00 8)
    /\ p_count q' = 0 /\ p_readp q' = 0 /\ p_writep q' = 0.
Proof.
  assert (H1 : 0 <= p_nr_readers (set_count 5 full8) <= INT_MAX)
    by (unfold INT_MAX; simpl; lia).
  assert (H2 : 0 <= p_nr_writers (set_count 5 full8) <= INT_MAX)
    by (unfold INT_MAX; simpl; lia).
  destruct (release_frees_at_zero_then_open_reallocates
              (rdwr 0) (set_count 5 full8) H1 H2)
    as (q & tr & HR & _ & _ & _ & _ & HF & _ & HO).
  destruct (HF eq_refl) as [HN _].
  assert (H3 : 0 <= 8 <= INT_MAX) by (unfold INT_MAX; lia).
  destruct (HO eq_refl 8 (reader 0) quiet eq_refl eq_refl H3)
    as (q' & HP & Hb & Hc & Hr & Hw & _).
  exists q, q'. rewrite HR, HP. simpl.
  repeat split; assumption.
Defined.

(** * Invariants *)

(** The channel a wait loop returns an error with is the one the call was
    entered with or one handed back by the other sessions. *)
Lemma read_wait_stop_state (nonblock : bool) (ws : list wake) :
  forall p ret q out tr,
    read_wait nonblock ws p = (inr (Returned ret q out), tr) ->
    q = p \/ In q (resumed ws).
Proof.
  induction ws as [|w ws IH]; intros p ret q out tr; rewrite read_wait_eq;
    destruct (negb (p_count p =? 0)); try discriminate;
    destruct nonblock; try (intros H; inversion H; auto; fail);
    try discriminate.
  destruct w; try (intros H; inversion H; auto; fail).
  destruct (read_wait false ws p0) as [r tr1] eqn:W.
  intros H; inversion H; subst.
  destruct (IH _ _ _ _ _ W) as [->|HI]; simpl; auto.
Qed.

Lemma write_wait_stop_state (nonblock : bool) (ws : list wake) :
  forall p ret q out tr,
    write_wait nonblock ws p = (inr (Returned ret q out), tr) ->
    q = p \/ In q (resumed ws).
Proof.
  induction ws as [|w ws IH]; intros p ret q out tr; rewrite write_wait_eq;
    destruct (negb (p_count p =? p_size p)); try discriminate;
    destruct nonblock; try (intros H; inversion H; auto; fail);
    try discriminate.
  destruct w; try (intros H; inversion H; auto; fail).
  destruct (write_wait false ws p0) as [r tr1] eqn:W.
  intros H; inversion H; subst.
  destruct (IH _ _ _ _ _ W) as [->|HI]; simpl; auto.
Qed.

(** The transfer of a write on an idle channel stores nothing and leaves the
    channel as it is. *)
Lemma write_xfer_idle (e : env) (src : list byte) (count size : Z) (p : pipe) :
  idle size p ->
  0 <= count ->
  write_xfer e src count p =
    (Returned 0 p [], [CopyFromUser 0 0 0; MutexUnlock; WakeUp p_readq]).
Proof.
  intros (HC & HR & HW & HS) Hc.
  unfold write_xfer. rewrite HC, (clamp_to_empty count Hc), HR, HW.
  simpl. unfold write_done. simpl. rewrite HC.
  destruct p; simpl in *; subst. reflexivity.
Qed.

(** The calls keep an idle channel idle: no write stores a byte in it, no
    read gets past the wait loop, an open resets what is already 0 and a
    release touches neither the positions nor the count. *)
Lemma reachable_idle (size : Z) (p0 : pipe) :
  idle size p0 -> forall p, reachable p0 p -> idle size p.
Proof.
  intros H0 p R.
  induction R as [| filp e p ret q out tr R IH E
                  | filp p ret q out tr R IH E
                  | filp count e p ret q out tr R IH RS IHS Hc E
                  | filp src count e p ret q out tr R IH RS IHS Hc E].
  - exact H0.
  - destruct H0 as (_ & _ & _ & HS0). rewrite HS0 in E.
    unfold pipe_open in E. destruct (lock_intr e).
    { inversion E; subst. exact IH. }
    destruct (p_rbuf p) as [b|].
    + inversion E; subst. repeat split.
    + destruct (kzalloc _ _) as [b|]; inversion E; subst;
        [repeat split | exact IH].
  - unfold pipe_release in E. inversion E; subst.
    destruct IH as (HC & HR & HW & HS). repeat split; assumption.
  - unfold pipe_read in E. destruct (lock_intr e).
    { inversion E; subst. exact IH. }
    destruct (read_wait _ (wakes e) p) as [[p1|o] tr1] eqn:W.
    + destruct (read_wait_entry _ _ _ _ _ W) as [[->|HI] Hne].
      * destruct IH as [HC _]. contradiction.
      * destruct (IHS _ HI) as [HC _]. contradiction.
    + inversion E; subst.
      destruct (read_wait_stop_state _ _ _ _ _ _ _ W) as [->|HI]; auto.
  - unfold pipe_write in E. destruct (lock_intr e).
    { inversion E; subst. exact IH. }
    destruct (write_wait _ (wakes e) p) as [[p1|o] tr1] eqn:W.
    + assert (I1 : idle size p1).
      { destruct (write_wait_entry _ _ _ _ _ W) as [[->|HI] _]; auto. }
      rewrite (write_xfer_idle e src count size p1 I1) in E by lia.
      inversion E; subst. exact I1.
    + inversion E; subst.
      destruct (write_wait_stop_state _ _ _ _ _ _ _ W) as [->|HI]; auto.
Qed.

(** A successful open leaves an idle channel of [pipe_size] bytes. *)
Lemma pipe_open_idle (pipe_size : Z) (filp : file) (e : env) (pre p0 : pipe)
      (out : list byte) (tr : list event) :
  pipe_open pipe_size filp e pre = (Returned 0 p0 out, tr) ->
  idle pipe_size p0.
Proof.
  unfold pipe_open. destruct (lock_intr e); [discriminate|].
  destruct (p_rbuf pre) as [b|].
  - intros H; inversion H; subst. repeat split.
  - destruct (kzalloc _ _) as [b|]; [|discriminate].
    intros H; inversion H; subst. repeat split.
Qed.

(** C2. From a channel just opened with a positive [pipe_size], after every
    completed read and write, by any session and with any interleaving of
    sleeps and wake-ups (and of other sessions opening and closing),
    [0 <= p_count <= p_size] and both positions are in [0, p_size). *)
Theorem ring_invariants_after_every_operation :
  forall (pipe_size : Z) (filp : file) (e : env) (pre p0 : pipe)
         (out : list byte) (tr : list event),
    0 < pipe_size ->
    pipe_open pipe_size filp e pre = (Returned 0 p0 out, tr) ->
    forall p, reachable p0 p -> ring_inv p.
Proof.
  intros pipe_size filp e pre p0 out tr Hpos HO p R.
  apply pipe_open_idle in HO.
  destruct (reachable_idle pipe_size p0 HO p R) as (HC & HR & HW & HS).
  unfold ring_inv. rewrite HC, HR, HW, HS. lia.
Qed.

Lemma ring_invariants_after_every_operation_witness :
  ring_inv (opened 8).
Proof.
  apply (ring_invariants_after_every_operation
           8 (rdwr 0) quiet pipe0 (opened 8) []
           [MutexLock; Kzalloc 8; MutexUnlock]).
  - lia.
  - reflexivity.
  - apply (reach_read (opened 8) (reader O_NONBLOCK) 3 quiet (opened 8)
                      (- EAGAIN) (opened 8) [] [MutexLock; MutexUnlock]).
    + apply (reach_write (opened 8) (writer 0) bytes_1_5 5 quiet (opened 8)
                         0 (opened 8) []
                         [MutexLock; CopyFromUser 0 0 0; MutexUnlock;
                          WakeUp p_readq]).
      * apply reach_start.
      * intros s [].
      * unfold SIZE_MAX. lia.
      * reflexivity.
    + intros s [].
    + unfold SIZE_MAX. lia.
    + reflexivity.
Defined.

(** * Bytes in the buffer *)

Lemma nth_error_load (b : list byte) (off n : Z) (i : nat) :
  nth_error (load b off n) i =
  if (i <? Z.to_nat n)%nat then nth_error b (Z.to_nat off + i) else None.
Proof. unfold load. rewrite nth_error_firstn, nth_error_skipn. reflexivity. Qed.

Lemma length_load (b : list byte) (off n : Z) :
  0 <= off -> 0 <= n -> off + n <= len b ->
  length (load b off n) = Z.to_nat n.
Proof.
  unfold load, len. intros. rewrite length_firstn, length_skipn. lia.
Qed.

Lemma nth_error_store (b d : list byte) (off : Z) (i : nat) :
  0 <= off <= len b ->
  nth_error (store b off d) i =
  if (i <? Z.to_nat off)%nat then nth_error b i
  else if (i <? Z.to_nat off + length d)%nat
       then nth_error d (i - Z.to_nat off)
       else nth_error b i.
Proof.
  unfold store, len. intros H.
  rewrite nth_error_app, length_firstn.
  replace (Init.Nat.min (Z.to_nat off) (length b)) with (Z.to_nat off) by lia.
  destruct (Nat.ltb_spec i (Z.to_nat off)) as [L|L].
  - rewrite nth_error_firstn.
    destruct (Nat.ltb_spec i (Z.to_nat off)); [reflexivity | lia].
  - rewrite nth_error_app.
    destruct (Nat.ltb_spec (i - Z.to_nat off) (length d)) as [L1|L1];
      destruct (Nat.ltb_spec i (Z.to_nat off + length d)) as [L2|L2];
      try lia; [reflexivity|].
    rewrite nth_error_skipn. f_equal. lia.
Qed.

Lemma length_store (b d : list byte) (off : Z) :
  0 <= off -> off + len d <= len b -> length (store b off d) = length b.
Proof.
  unfold store, len. intros.
  rewrite !length_app, length_firstn, length_skipn. lia.
Qed.

(** Splitting the caller's bytes at [top] loses nothing. *)
Lemma load_split (src : list byte) (top : Z) :
  0 <= top <= len src ->
  load src 0 top ++ load src top (len src - top) = src.
Proof.
  unfold load, len. intros H. simpl skipn.
  rewrite (firstn_all2 (n := Z.to_nat (Z.of_nat (length src) - top))).
  - apply firstn_skipn.
  - rewrite length_skipn. lia.
Qed.

Ltac by_cases :=
  repeat match goal with
         | |- context [(?a <? ?b)%nat] => destruct (Nat.ltb_spec a b)
         end;
  try lia;
  try reflexivity;
  try (f_equal; lia);
  try (symmetry; apply nth_error_None; unfold len in *; lia);
  try (apply nth_error_None; unfold len in *; lia).

(** The buffer after a write in two segments, read back from [r] through the
    end and on from offset 0: what was buffered in [r, w), then the bytes
    written, in order. *)
Lemma wrapped_readback (b src : list byte) (r w size k : Z) :
  len b = size ->
  0 <= r -> r < w -> w < size ->
  len src = k ->
  size - w < k ->
  k - (size - w) <= r ->
  let top := size - w in
  let b' := store (store b w (load src 0 top)) 0 (load src top (k - top)) in
  len b' = size
  /\ load b' r (size - r) ++ load b' 0 (k - top) = load b r (w - r) ++ src.
Proof.
  intros Hb Hr Hrw Hw Hs Hk Hfit top b'.
  assert (L1 : length (load src 0 top) = Z.to_nat top).
  { apply length_load; unfold top; lia. }
  assert (L2 : length (load src top (k - top)) = Z.to_nat (k - top)).
  { apply length_load; unfold top; lia. }
  assert (L3 : length (store b w (load src 0 top)) = length b).
  { apply length_store; unfold len in *; lia. }
  assert (L4 : length b' = length b).
  { unfold b'. rewrite length_store; unfold len in *; lia. }
  split; [unfold len in *; lia|].
  assert (Esrc : load src 0 top ++ load src top (k - top) = src).
  { rewrite <- Hs. apply load_split. unfold top. lia. }
  apply (eq_trans
           (y := load b r (w - r) ++ load src 0 top ++ load src top (k - top)));
    [|f_equal; exact Esrc].
  clear Esrc.
  apply nth_error_ext. intros i.
  assert (L5 : length (load b' r (size - r)) = Z.to_nat (size - r)).
  { apply length_load; unfold len in *; lia. }
  assert (L6 : length (load b r (w - r)) = Z.to_nat (w - r)).
  { apply length_load; unfold len in *; lia. }
  rewrite !nth_error_app, L5, L6, L1, !nth_error_load.
  unfold b'.
  rewrite !nth_error_store by (unfold len in *; lia).
  rewrite L1, L2, !nth_error_load.
  unfold top in *. unfold len in *.
  by_cases.
Qed.

(** ** User copies that succeed *)

Lemma copy_to_user_ok (left : Z) (b : list byte) (off n : Z) :
  left <= 0 -> 0 < n -> 0 <= off -> off + n <= len b ->
  copy_to_user left (Some b) off n = Copied (load b off n).
Proof.
  intros Hl Hn Ho Hb. unfold copy_to_user, inside, uncopied.
  destruct (Z.eqb_spec n 0); [lia|].
  destruct (Z.leb_spec 0 off); [|lia].
  destruct (Z.leb_spec (off + n) (len b)); [|lia]. simpl.
  destruct (Z.eqb_spec (Z.max 0 (Z.min left n)) 0); [reflexivity | lia].
Qed.

Lemma copy_from_user_ok (left : Z) (src b : list byte) (uoff off n : Z) :
  left <= 0 -> 0 < n -> 0 <= off -> off + n <= len b ->
  0 <= uoff -> uoff + n <= len src ->
  copy_from_user left src uoff (Some b) off n =
    Copied (Some (store b off (load src uoff n))).
Proof.
  intros Hl Hn Ho Hb Hu Hs. unfold copy_from_user, inside, uncopied.
  destruct (Z.eqb_spec n 0); [lia|].
  destruct (Z.leb_spec 0 off); [|lia].
  destruct (Z.leb_spec (off + n) (len b)); [|lia]. simpl.
  destruct (Z.eqb_spec
              (Z.max (Z.max 0 (Z.min left n))
                     (n - Z.max 0 (Z.min n (len src - uoff)))) 0);
    [reflexivity | lia].
Qed.

(** ** The two-segment paths *)

(** A read in the wrapped layout ([p_readp >= p_writep]) that reaches the end
    of the buffer: the bytes from [p_readp] to the end, then the rest from
    offset 0, and [p_readp] left just past the last byte taken. *)
Lemma read_xfer_wrapped (e : env) (count : Z) (p : pipe) (b : list byte) :
  top_left e = 0 -> bot_left e = 0 ->
  p_rbuf p = Some b -> len b = p_size p -> p_size p <= INT_MAX ->
  p_writep p <= p_readp p -> 0 <= p_readp p < p_size p ->
  0 < p_count p <= p_size p ->
  0 <= count <= SIZE_MAX ->
  let n := Z.min count (p_count p) in
  let top := p_size p - p_readp p in
  top <= n ->
  read_xfer e count p =
    (Returned n
       (set_count (p_count p - n) (set_readp (n - top) p))
       (load b (p_readp p) top ++ load b 0 (n - top)),
     (if n =? top then [CopyToUser (p_readp p) top]
      else [CopyToUser (p_readp p) top; CopyToUser 0 (n - top)])
     ++ [MutexUnlock; WakeUp p_writeq]).
Proof.
  intros Ht Hb Hbuf Hlen Hmax Hwr Hr Hc Hcount n top Htop.
  unfold read_xfer. rewrite Ht, Hb, Hbuf.
  assert (E1 : to_size_t (p_count p) = p_count p).
  { apply to_size_t_id. int_ranges. lia. }
  rewrite E1.
  assert (En : (if p_count p <? count then p_count p else count) = n).
  { unfold n. destruct (Z.ltb_spec (p_count p) count); lia. }
  rewrite En.
  destruct (Z.ltb_spec (p_readp p) (p_writep p)); [lia|].
  assert (E2 : to_int (p_size p - p_readp p) = top).
  { apply to_int_id. unfold top. int_ranges. lia. }
  assert (E3 : to_ssize_t top = top).
  { apply to_ssize_t_id. unfold top. int_ranges. lia. }
  assert (E4 : to_size_t top = top).
  { apply to_size_t_id. unfold top. int_ranges. lia. }
  rewrite E2, E3, E4.
  destruct (Z.ltb_spec n top); [lia|]. rewrite E4.
  rewrite copy_to_user_ok by (unfold top; lia).
  assert (E5 : to_size_t (n - top) = n - top).
  { apply to_size_t_id. unfold n, top in *. int_ranges. lia. }
  assert (E6 : to_int (n - top) = n - top).
  { apply to_int_id. unfold n, top in *. int_ranges. lia. }
  assert (E7 : to_int (p_count p - n) = p_count p - n).
  { apply to_int_id. unfold n, top in *. int_ranges. lia. }
  assert (E8 : to_ssize_t n = n).
  { apply to_ssize_t_id. unfold n, top in *. int_ranges. lia. }
  rewrite E5.
  destruct (Z.eqb_spec (n - top) 0) as [Z0|Z0].
  - destruct (Z.eqb_spec n top); [|lia].
    unfold read_done. cbn [p_count set_readp]. rewrite E6, E7, E8, Z0.
    unfold load at 2. simpl firstn. rewrite app_nil_r. reflexivity.
  - destruct (Z.eqb_spec n top); [lia|].
    rewrite copy_to_user_ok by (unfold n, top in *; lia).
    unfold read_done. cbn [p_count set_readp]. rewrite E6, E7, E8.
    reflexivity.
Qed.

(** A write with [p_readp < p_writep] whose bytes do not fit before the end
    of the buffer: a top segment up to the end, the rest at offset 0, and
    [p_writep] left just past the last byte stored. *)
Lemma write_xfer_split (e : env) (src : list byte) (k : Z) (p : pipe)
      (b : list byte) :
  top_left e = 0 -> bot_left e = 0 ->
  p_rbuf p = Some b -> len b = p_size p -> p_size p <= INT_MAX ->
  0 <= p_readp p -> p_readp p < p_writep p -> p_writep p < p_size p ->
  0 <= p_count p <= p_size p ->
  len src = k -> k <= p_count p ->
  let top := p_size p - p_writep p in
  top < k ->
  k - top <= p_size p ->
  write_xfer e src k p =
    (Returned k
       (mkpipe (Some (store (store b (p_writep p) (load src 0 top))
                            0 (load src top (k - top))))
               (p_readp p) (k - top) (to_int (p_count p + k)) (p_size p)
               (p_nr_readers p) (p_nr_writers p))
       [],
     [CopyFromUser (p_writep p) 0 top; CopyFromUser 0 top (k - top);
      MutexUnlock; WakeUp p_readq]).
Proof.
  intros Ht Hb Hbuf Hlen Hmax Hr Hrw Hw Hc Hs Hk top Htop Hfit.
  unfold write_xfer. rewrite Ht, Hb, Hbuf.
  assert (E1 : to_size_t (p_count p) = p_count p).
  { apply to_size_t_id. int_ranges. lia. }
  rewrite E1.
  destruct (Z.ltb_spec (p_count p) k); [lia|].
  destruct (Z.ltb_spec (p_readp p) (p_writep p)); [|lia].
  assert (E2 : to_int (p_size p - p_writep p) = top).
  { apply to_int_id. unfold top. int_ranges. lia. }
  assert (E3 : to_ssize_t top = top).
  { apply to_ssize_t_id. unfold top. int_ranges. lia. }
  assert (E4 : to_size_t top = top).
  { apply to_size_t_id. unfold top. int_ranges. lia. }
  rewrite E2, E3, E4.
  destruct (Z.ltb_spec k top); [lia|]. rewrite E4.
  rewrite copy_from_user_ok by (unfold top; lia).
  assert (E5 : to_size_t (k - top) = k - top).
  { apply to_size_t_id. unfold top in *. int_ranges. lia. }
  assert (E6 : to_int (k - top) = k - top).
  { apply to_int_id. unfold top in *. int_ranges. lia. }
  assert (E8 : to_ssize_t k = k).
  { apply to_ssize_t_id. unfold top in *. int_ranges. lia. }
  rewrite E5.
  destruct (Z.eqb_spec (k - top) 0); [lia|].
  assert (L1 : length (load src 0 top) = Z.to_nat top).
  { apply length_load; unfold top; lia. }
  assert (L3 : len (store b (p_writep p) (load src 0 top)) = p_size p).
  { unfold len. rewrite length_store; unfold len in *; lia. }
  rewrite copy_from_user_ok by (unfold top in *; lia).
  unfold write_done. cbn. rewrite E6, E8. reflexivity.
Qed.

(** * Wrap-around *)

(** C4. The wrapped read path forgets its place, so bytes written across
    the end of the buffer do not come back in order. [pipe_write] does split
    a write that crosses the end ([split8]: 2 bytes at offset 6, 2 at
    offset 0). But a read in the wrapped layout that needs no bottom half
    leaves [p_readp] at [count - topcount = 0] instead of just past the last
    byte taken, as the contiguous path does: on the channel the split write
    leaves, the read of the 4 older bytes takes offsets 2..5 and leaves
    [p_readp] at 0, not 6, and the read of the 4 bytes written then returns
    03 04 0a 0b, not 01 02 03 04. On [tail8] (bytes 01..05 from offset 5
    round to offset 1) a read of 1 byte leaves [p_readp] at 0, not 6, and
    the next 4 bytes read are 04 05 00 00, not 02 03 04 05. With the write
    position below the read position ([wrapped8]) a write of 7 bytes is one
    copy of 7 bytes at offset 4, past the end of the 8-byte buffer. *)
Theorem wrapped_read_forgets_its_place :
  (pipe_write (writer 0) bytes_1_4 4 quiet split8 =
     (Returned 4 after_split8 [],
      [MutexLock; CopyFromUser 6 0 2; CopyFromUser 0 2 2; MutexUnlock;
       WakeUp p_readq])
   /\ pipe_read (reader 0) 4 quiet after_split8 =
        (Returned 4 (set_count 4 (set_readp 0 after_split8))
           [x0a; x0b; x0c; x0d],
         [MutexLock; CopyToUser 2 4; MutexUnlock; WakeUp p_writeq])
   /\ pipe_read (reader 0) 4 quiet (set_count 4 (set_readp 0 after_split8)) =
        (Returned 4 (set_count 0 (set_readp 4 after_split8))
           [x03; x04; x0a; x0b],
         [MutexLock; CopyToUser 0 4; MutexUnlock; WakeUp p_writeq]))
  /\
  (p_writep tail8 <= p_readp tail8
   /\ pipe_read (reader 0) 1 quiet tail8 =
        (Returned 1 (set_count 4 (set_readp 0 tail8)) [x01],
         [MutexLock; CopyToUser 5 1; MutexUnlock; WakeUp p_writeq])
   /\ p_readp (set_count 4 (set_readp 0 tail8)) <> p_readp tail8 + 1
   /\ pipe_read (reader 0) 4 quiet (set_count 4 (set_readp 0 tail8)) =
        (Returned 4 (set_count 0 (set_readp 4 tail8))
           [x04; x05; x00; x00],
         [MutexLock; CopyToUser 0 4; MutexUnlock; WakeUp p_writeq]))
  /\
  (p_writep wrapped8 < p_readp wrapped8
   /\ p_size wrapped8 < p_writep wrapped8 + 7
   /\ pipe_write (writer 0) bytes_a_g 7 quiet wrapped8 =
        (BadAccess 4 7, [MutexLock; CopyFromUser 4 0 7])).
Proof.
  repeat split; try reflexivity; try discriminate; simpl; lia.
Qed.

(** The bytes of a write come out after the bytes buffered before it: on
    [split8] the 4 bytes written in two segments are not the 4 bytes the
    next read of 4 returns. *)
Lemma split_write_is_read_after_older_bytes :
  pipe_write (writer 0) bytes_1_4 4 quiet split8 =
    (Returned 4 after_split8 [],
     [MutexLock; CopyFromUser 6 0 2; CopyFromUser 0 2 2; MutexUnlock;
      WakeUp p_readq])
  /\ exists q tr,
      pipe_read (reader 0) 4 quiet after_split8 =
        (Returned 4 q [x0a; x0b; x0c; x0d], tr).
Proof. split; [reflexivity|]. eexists; eexists. reflexivity. Qed.

(** X15. Round trip through the two-segment write path. The split is
    taken when the read position is below the write position. In a channel
    whose [p_count = p_writep - p_readp] bytes lie in
    [p_readp, p_writep), a write of [k] bytes, [k] no more than the
    bytes buffered and no more than the free space, that crosses the end of
    the buffer is copied in a top segment of [p_size - p_writep] bytes and a
    bottom segment of the remaining bytes at offset 0; [p_writep] is left at
    the length of the bottom segment. The read of everything buffered that
    follows is in the wrapped layout: it returns the bytes buffered before,
    then the [k] bytes written, in their order, and leaves [p_readp] just
    past the last byte taken. Any read in the wrapped layout that reaches
    the end of the buffer returns the bytes up to the end followed by those
    from offset 0, and leaves [p_readp] just past the last byte taken. *)
Theorem split_write_reads_back_in_order :
  (forall (filp : file) (src : list byte) (k : Z) (e : env) (p : pipe)
          (b : list byte),
      lock_intr e = false -> top_left e = 0 -> bot_left e = 0 ->
      p_rbuf p = Some b -> len b = p_size p -> p_size p <= INT_MAX ->
      0 <= p_readp p -> p_readp p < p_writep p -> p_writep p < p_size p ->
      p_count p = p_writep p - p_readp p ->
      len src = k -> k <= p_count p ->
      k <= p_size p - p_count p ->
      let top := p_size p - p_writep p in
      top < k ->
      let q := mkpipe (Some (store (store b (p_writep p) (load src 0 top))
                                   0 (load src top (k - top))))
                      (p_readp p) (k - top) (p_count p + k) (p_size p)
                      (p_nr_readers p) (p_nr_writers p) in
      pipe_write filp src k e p =
        (Returned k q [],
         [MutexLock; CopyFromUser (p_writep p) 0 top;
          CopyFromUser 0 top (k - top); MutexUnlock; WakeUp p_readq])
      /\
      forall (filp' : file) (e' : env),
        lock_intr e' = false -> top_left e' = 0 -> bot_left e' = 0 ->
        pipe_read filp' (p_count q) e' q =
          (Returned (p_count q)
             (set_count 0 (set_readp (k - top) q))
             (load b (p_readp p) (p_count p) ++ src),
           [MutexLock; CopyToUser (p_readp p) (p_size p - p_readp p);
            CopyToUser 0 (k - top); MutexUnlock; WakeUp p_writeq]))
  /\
  (forall (filp : file) (count : Z) (e : env) (p : pipe) (b : list byte),
      lock_intr e = false -> top_left e = 0 -> bot_left e = 0 ->
      p_rbuf p = Some b -> len b = p_size p -> p_size p <= INT_MAX ->
      p_writep p <= p_readp p -> 0 <= p_readp p < p_size p ->
      0 < p_count p <= p_size p ->
      0 <= count <= SIZE_MAX ->
      let n := Z.min count (p_count p) in
      let top := p_size p - p_readp p in
      top <= n ->
      exists tr,
        pipe_read filp count e p =
          (Returned n
             (set_count (p_count p - n) (set_readp (n - top) p))
             (load b (p_readp p) top ++ load b 0 (n - top)),
           tr)).
Proof.
  split.
  - intros filp src k e p b HL Ht Hb Hbuf Hlen Hmax Hr Hrw Hw Hc Hs Hk Hfree
           top Htop q.
    assert (Hfit : k - top <= p_readp p) by (unfold top; lia).
    split.
    + unfold pipe_write. rewrite HL, write_wait_ready by lia.
      rewrite (write_xfer_split e src k p b)
        by (fold top; first [assumption | lia]).
      fold top. simpl. unfold q. repeat f_equal.
      apply to_int_id. unfold top in *. int_ranges. lia.
    + intros filp' e' HL' Ht' Hb'.
      destruct (wrapped_readback b src (p_readp p) (p_writep p) (p_size p) k)
        as [Lq Eq]; try lia.
      fold top in Lq, Eq.
      unfold pipe_read. rewrite HL'.
      rewrite read_wait_ready by (unfold q; simpl; unfold top in *; lia).
      rewrite (read_xfer_wrapped e' (p_count q) q _ Ht' Hb' eq_refl);
        cbv zeta; unfold q; cbn [p_rbuf p_readp p_writep p_count p_size];
        try exact Lq; try (unfold top in *; int_ranges; lia).
      rewrite Z.min_id, Z.sub_diag.
      replace (p_count p + k - (p_size p - p_readp p)) with (k - top)
        by (unfold top; lia).
      destruct (Z.eqb_spec (p_count p + k) (p_size p - p_readp p));
        [unfold top in *; lia|].
      rewrite Eq, Hc. reflexivity.
  - intros filp count e p b HL Ht Hb Hbuf Hlen Hmax Hwr Hr Hc Hcount n top
           Htop.
    unfold pipe_read. rewrite HL, read_wait_ready by lia.
    rewrite (read_xfer_wrapped e count p b)
      by (fold n top; first [assumption | lia]).
    fold n top. eexists. reflexivity.
Qed.

Lemma split_write_reads_back_in_order_witness :
  (exists q,
      pipe_write (writer 0) bytes_1_4 4 quiet split8 =
        (Returned 4 q [],
         [MutexLock; CopyFromUser 6 0 2; CopyFromUser 0 2 2; MutexUnlock;
          WakeUp p_readq])
      /\ p_rbuf q = Some [x03; x04; x0a; x0b; x0c; x0d; x01; x02]
      /\ pipe_read (reader 0) 8 quiet q =
           (Returned 8 (set_count 0 (set_readp 2 q))
              [x0a; x0b; x0c; x0d; x01; x02; x03; x04],
            [MutexLock; CopyToUser 2 6; CopyToUser 0 2; MutexUnlock;
             WakeUp p_writeq]))
  /\
  (exists tr,
      pipe_read (reader 0) 5 quiet tail8 =
        (Returned 5 (set_count 0 (set_readp 2 tail8))
           [x01; x02; x03; x04; x05], tr)).
Proof.
  destruct split_write_reads_back_in_order as [HW HR]. split.
  - destruct (HW (writer 0) bytes_1_4 4 quiet split8
                 [x00; x00; x0a; x0b; x0c; x0d; x00; x00]) as [H1 H2];
      try reflexivity; try (unfold INT_MAX; simpl; lia).
    eexists. split; [exact H1|]. split; [reflexivity|].
    apply (H2 (reader 0) quiet); reflexivity.
  - apply (HR (reader 0) 5 quiet tail8
              [x04; x05; x00; x00; x00; x01; x02; x03]);
      try reflexivity; try (unfold INT_MAX, SIZE_MAX; simpl; lia).
Defined.

(** * The lock *)

(** A wait loop entered with the lock held goes on with the lock held and
    ends the call with the lock released. *)
Lemma read_wait_lock (nonblock : bool) (ws : list wake) :
  forall p r tr,
    read_wait nonblock ws p = (r, tr) ->
    lock_held true tr = match r with inl _ => true | inr _ => false end.
Proof.
  induction ws as [|w ws IH]; intros p r tr; rewrite read_wait_eq;
    destruct (negb (p_count p =? 0));
    try (intros H; inversion H; reflexivity);
    destruct nonblock; try (intros H; inversion H; reflexivity).
  destruct w; try (intros H; inversion H; reflexivity).
  destruct (read_wait false ws p0) as [r1 tr1] eqn:W.
  intros H; inversion H; subst. simpl. eapply IH; eauto.
Qed.

Lemma write_wait_lock (nonblock : bool) (ws : list wake) :
  forall p r tr,
    write_wait nonblock ws p = (r, tr) ->
    lock_held true tr = match r with inl _ => true | inr _ => false end.
Proof.
  induction ws as [|w ws IH]; intros p r tr; rewrite write_wait_eq;
    destruct (negb (p_count p =? p_size p));
    try (intros H; inversion H; reflexivity);
    destruct nonblock; try (intros H; inversion H; reflexivity).
  destruct w; try (intros H; inversion H; reflexivity).
  destruct (write_wait false ws p0) as [r1 tr1] eqn:W.
  intros H; inversion H; subst. simpl. eapply IH; eauto.
Qed.

Lemma read_xfer_unlocks (e : env) (count : Z) (p : pipe) :
  forall o tr,
    read_xfer e count p = (o, tr) -> finished o ->
    forall h, lock_held h tr = false.
Proof.
  intros o tr. unfold read_xfer, read_done, xfer_fail.
  repeat match goal with
         | |- context [if ?c then _ else _] => destruct c
         | |- context [match copy_to_user ?a ?b ?c ?d with _ => _ end] =>
             destruct (copy_to_user a b c d)
         end;
    intros H; inversion H; subst; clear H; simpl; intros F h;
    try contradiction; reflexivity.
Qed.

Lemma write_xfer_unlocks (e : env) (src : list byte) (count : Z) (p : pipe) :
  forall o tr,
    write_xfer e src count p = (o, tr) -> finished o ->
    forall h, lock_held h tr = false.
Proof.
  intros o tr. unfold write_xfer, write_done, xfer_fail.
  repeat match goal with
         | |- context [if ?c then _ else _] => destruct c
         | |- context [match copy_from_user ?a ?b ?c ?d ?f ?g with _ => _ end] =>
             destruct (copy_from_user a b c d f g)
         end;
    intros H; inversion H; subst; clear H; simpl; intros F h;
    try contradiction; reflexivity.
Qed.

(** X1. No file operation returns, or goes to sleep, with the channel's
    lock held: whatever path [pipe_open], [pipe_read], [pipe_write] or
    [pipe_release] takes (success, [-ERESTARTSYS], [-EAGAIN], [-ENOMEM],
    [-EFAULT], or a sleep in the wait loop), every lock it took is released
    by the end of its trace. *)
Theorem every_call_releases_the_lock :
  forall (pipe_size : Z) (filp : file) (src : list byte) (count : Z)
         (e : env) (p : pipe),
    (forall o tr, pipe_open pipe_size filp e p = (o, tr) ->
                  finished o -> lock_held false tr = false)
    /\ (forall o tr, pipe_read filp count e p = (o, tr) ->
                     finished o -> lock_held false tr = false)
    /\ (forall o tr, pipe_write filp src count e p = (o, tr) ->
                     finished o -> lock_held false tr = false)
    /\ (forall o tr, pipe_release filp p = (o, tr) ->
                     finished o -> lock_held false tr = false).
Proof.
  intros pipe_size filp src count e p. repeat split; intros o tr.
  - unfold pipe_open. destruct (lock_intr e).
    { intros H; inversion H; reflexivity. }
    destruct (p_rbuf p) as [b|].
    + intros H; inversion H; reflexivity.
    + destruct (kzalloc _ _); intros H; inversion H; reflexivity.
  - unfold pipe_read. destruct (lock_intr e).
    { intros H; inversion H; reflexivity. }
    destruct (read_wait _ (wakes e) p) as [[p0|o0] tr0] eqn:W.
    + destruct (read_xfer e count p0) as [o1 tr1] eqn:X.
      intros H F; inversion H; subst. simpl. rewrite lock_held_app.
      eapply read_xfer_unlocks; eauto.
    + intros H F; inversion H; subst. simpl.
      apply (read_wait_lock _ _ _ _ _ W).
  - unfold pipe_write. destruct (lock_intr e).
    { intros H; inversion H; reflexivity. }
    destruct (write_wait _ (wakes e) p) as [[p0|o0] tr0] eqn:W.
    + destruct (write_xfer e src count p0) as [o1 tr1] eqn:X.
      intros H F; inversion H; subst. simpl. rewrite lock_held_app.
      eapply write_xfer_unlocks; eauto.
    + intros H F; inversion H; subst. simpl.
      apply (write_wait_lock _ _ _ _ _ W).
  - unfold pipe_release. intros H F; inversion H; subst. simpl.
    rewrite lock_held_app. reflexivity.
Qed.

Lemma every_call_releases_the_lock_witness :
  lock_held false (snd (pipe_open 8 (rdwr 0) quiet pipe0)) = false
  /\ lock_held false
       (snd (pipe_read (reader 0) 5
                       (mkenv false false [Resume full8] 0 0) (opened 8)))
     = false
  /\ lock_held false
       (snd (pipe_write (writer 0) bytes_1_4 4 (mkenv false false [] 0 1)
                        split8)) = false
  /\ lock_held false (snd (pipe_release (rdwr 0) full8)) = false.
Proof.
  destruct (every_call_releases_the_lock 8 (rdwr 0) [] 0 quiet pipe0)
    as (HO & _).
  destruct (every_call_releases_the_lock
              0 (reader 0) [] 5 (mkenv false false [Resume full8] 0 0)
              (opened 8)) as (_ & HR & _).
  destruct (every_call_releases_the_lock
              0 (writer 0) bytes_1_4 4 (mkenv false false [] 0 1) split8)
    as (_ & _ & HW & _).
  destruct (every_call_releases_the_lock 0 (rdwr 0) [] 0 quiet full8)
    as (_ & _ & _ & HC).
  split; [|split; [|split]].
  - apply (HO _ _ (surjective_pairing _)). exact I.
  - apply (HR _ _ (surjective_pairing _)). exact I.
  - apply (HW _ _ (surjective_pairing _)). exact I.
  - apply (HC _ _ (surjective_pairing _)). exact I.
Defined.

(** * What a successful transfer does to the channel *)

Lemma copy_to_user_length (left : Z) (rbuf : option (list byte)) (off n : Z)
      (out : list byte) :
  0 <= n ->
  copy_to_user left rbuf off n = Copied out -> len out = n.
Proof.
  intros Hn. unfold copy_to_user, inside.
  destruct (Z.eqb_spec n 0) as [E|E].
  { intros H; inversion H; subst. reflexivity. }
  destruct rbuf as [b|]; [|discriminate].
  destruct (Z.leb_spec 0 off) as [L1|L1]; [|discriminate].
  destruct (Z.leb_spec (off + n) (len b)) as [L2|L2]; [|discriminate]. simpl.
  destruct (uncopied left n =? 0); [|discriminate].
  intros H; inversion H; subst. unfold len.
  rewrite length_load; unfold len in *; lia.
Qed.

(** The top segment of a request of [n] bytes, [n] within [int]: between 0
    and [n], whatever the positions are. *)
Lemma top_segment_range (n t0 : Z) :
  0 <= n <= INT_MAX ->
  let t := if n <? to_size_t (to_ssize_t t0) then to_ssize_t n
           else to_ssize_t t0 in
  0 <= t <= n /\ to_size_t t = t /\ to_size_t (n - t) = n - t.
Proof.
  intros Hn. cbv zeta.
  assert (En : to_ssize_t n = n) by (apply to_ssize_t_id; int_ranges; lia).
  destruct (Z.ltb_spec n (to_size_t (to_ssize_t t0))) as [L|L].
  - rewrite En. replace (n - n) with 0 by lia.
    repeat split; try lia; apply to_size_t_id; int_ranges; lia.
  - pose proof (to_ssize_t_range t0) as R.
    assert (P : 0 <= to_ssize_t t0).
    { destruct (Z_lt_le_dec (to_ssize_t t0) 0) as [N|N]; [|exact N].
      exfalso. unfold to_size_t in L.
      replace (to_ssize_t t0) with (to_ssize_t t0 + 2 ^ 64 + (-1) * 2 ^ 64)
        in L at 1 by ring.
      rewrite Z.mod_add, Z.mod_small in L by (int_ranges; lia).
      int_ranges. lia. }
    assert (E : to_size_t (to_ssize_t t0) = to_ssize_t t0).
    { apply to_size_t_id. int_ranges. lia. }
    rewrite E in L.
    repeat split; try lia; try exact E.
    apply to_size_t_id. int_ranges. lia.
Qed.

(** A read that returns a byte count: the count is the request clamped to
    what is buffered, that many bytes reach the caller, [p_count] is debited
    by it, and only [p_readp] and [p_count] change. *)
Lemma read_xfer_success (e : env) (count : Z) (p : pipe) :
  forall ret q out tr,
    read_xfer e count p = (Returned ret q out, tr) ->
    0 <= ret ->
    0 <= count ->
    0 <= p_count p <= INT_MAX ->
    ret = Z.min count (p_count p)
    /\ len out = ret
    /\ q = set_count (p_count p - ret) (set_readp (p_readp q) p).
Proof.
  intros ret q out tr H Hret Hc Hp.
  set (n := Z.min count (p_count p)).
  assert (E1 : to_size_t (p_count p) = p_count p).
  { apply to_size_t_id. int_ranges. lia. }
  assert (En : (if to_size_t (p_count p) <? count
                then to_size_t (p_count p) else count) = n).
  { rewrite E1. unfold n. destruct (Z.ltb_spec (p_count p) count); lia. }
  assert (Rn : 0 <= n <= INT_MAX) by (unfold n; lia).
  assert (Es : to_ssize_t n = n) by (apply to_ssize_t_id; int_ranges; lia).
  assert (Ei : to_int (p_count p - n) = p_count p - n).
  { apply to_int_id. unfold n in *. int_ranges. lia. }
  unfold read_xfer in H. rewrite En in H.
  destruct (p_readp p <? p_writep p).
  - destruct (copy_to_user (top_left e) (p_rbuf p) (p_readp p) n) as [o|r o|]
      eqn:C; unfold read_done, xfer_fail in H; inversion H; subst; clear H;
      try (unfold EFAULT in Hret; lia).
    rewrite Es, Ei. repeat split.
    apply (copy_to_user_length _ _ _ _ _ (proj1 Rn) C).
  - destruct (top_segment_range n (to_int (p_size p - p_readp p)) Rn)
      as (Rt & Et & Er).
    remember (if n <? to_size_t (to_ssize_t (to_int (p_size p - p_readp p)))
              then to_ssize_t n
              else to_ssize_t (to_int (p_size p - p_readp p))) as t.
    rewrite Et, Er in H.
    destruct (copy_to_user (top_left e) (p_rbuf p) (p_readp p) t) as [o1|r o1|]
      eqn:C1; unfold read_done, xfer_fail in H;
      try (inversion H; subst; unfold EFAULT in Hret; lia).
    apply copy_to_user_length in C1; [|lia].
    destruct (n - t =? 0) eqn:Z0.
    + apply Z.eqb_eq in Z0. inversion H; subst ret q out tr; clear H.
      rewrite Es, Ei. repeat split. lia.
    + destruct (copy_to_user (bot_left e) (p_rbuf p) 0 (n - t))
        as [o2|r o2|] eqn:C2;
        try (inversion H; subst; unfold EFAULT in Hret; lia).
      apply copy_to_user_length in C2; [|lia].
      inversion H; subst ret q out tr; clear H.
      rewrite Es, Ei. repeat split.
      unfold len in *. rewrite length_app. lia.
Qed.

(** X2. A read that returns a byte count returns the request clamped to
    what the channel held when the transfer began, delivers exactly that
    many bytes, debits [p_count] by exactly that number, and changes nothing
    else but [p_readp]: the buffer, the write position, the size and the
    session counts are those of the channel the transfer began with. The
    byte counts of the channels involved are within [int]. *)
Theorem read_debits_what_it_returns :
  forall (filp : file) (count : Z) (e : env) (p : pipe)
         (ret : Z) (q : pipe) (out : list byte) (tr : list event),
    0 <= count ->
    (forall s, s = p \/ In s (resumed (wakes e)) ->
               0 <= p_count s <= INT_MAX) ->
    pipe_read filp count e p = (Returned ret q out, tr) ->
    0 <= ret ->
    exists p0,
      (p0 = p \/ In p0 (resumed (wakes e)))
      /\ p_count p0 <> 0
      /\ ret = Z.min count (p_count p0)
      /\ len out = ret
      /\ q = set_count (p_count p0 - ret) (set_readp (p_readp q) p0).
Proof.
  intros filp count e p ret q out tr Hc Hr H Hret.
  unfold pipe_read in H. destruct (lock_intr e).
  { inversion H; subst. unfold ERESTARTSYS in Hret. lia. }
  destruct (read_wait _ (wakes e) p) as [[p0|o] tr0] eqn:W.
  - destruct (read_xfer e count p0) as [o1 tr1] eqn:X.
    inversion H; subst. clear H.
    destruct (read_wait_entry _ _ _ _ _ W) as [Hin Hne].
    destruct (read_xfer_success _ _ _ _ _ _ _ X Hret Hc (Hr p0 Hin))
      as (E1 & E2 & E3).
    exists p0. auto.
  - inversion H; subst. apply read_wait_stop_negative in W. lia.
Qed.

Lemma read_debits_what_it_returns_witness :
  exists p0,
    (p0 = split8 \/ In p0 [])
    /\ p_count p0 <> 0
    /\ 3 = Z.min 3 (p_count p0)
    /\ len [x0a; x0b; x0c] = 3
    /\ set_count 1 (set_readp 5 split8)
       = set_count (p_count p0 - 3)
                   (set_readp (p_readp (set_count 1 (set_readp 5 split8))) p0).
Proof.
  apply (read_debits_what_it_returns
           (reader 0) 3 quiet split8 3 (set_count 1 (set_readp 5 split8))
           [x0a; x0b; x0c]
           [MutexLock; CopyToUser 2 3; MutexUnlock; WakeUp p_writeq]).
  - lia.
  - intros s [->|[]]. unfold INT_MAX. simpl. lia.
  - reflexivity.
  - lia.
Defined.

(** A write that returns a byte count: only the buffer, [p_writep] and
    [p_count] change, and [p_count] is credited by the count returned. *)
Lemma write_xfer_success (e : env) (src : list byte) (count : Z) (p : pipe) :
  forall ret q out tr,
    write_xfer e src count p = (Returned ret q out, tr) ->
    0 <= ret ->
    0 <= count ->
    0 <= p_count p <= INT_MAX ->
    ret = Z.min count (p_count p)
    /\ out = []
    /\ q = set_count (to_int (p_count p + ret))
             (set_writep (p_writep q) (set_rbuf (p_rbuf q) p)).
Proof.
  intros ret q out tr H Hret Hc Hp.
  set (n := Z.min count (p_count p)).
  assert (E1 : to_size_t (p_count p) = p_count p).
  { apply to_size_t_id. int_ranges. lia. }
  assert (En : (if to_size_t (p_count p) <? count
                then to_size_t (p_count p) else count) = n).
  { rewrite E1. unfold n. destruct (Z.ltb_spec (p_count p) count); lia. }
  assert (Es : to_ssize_t n = n).
  { apply to_ssize_t_id. unfold n. int_ranges. lia. }
  revert H. unfold write_xfer, write_done, xfer_fail. rewrite En.
  repeat match goal with
         | |- context [if ?c then _ else _] => destruct c
         | |- context [match copy_from_user ?a ?b ?c ?d ?f ?g with _ => _ end] =>
             destruct (copy_from_user a b c d f g)
         end;
    intros H; inversion H; subst ret q out tr; clear H;
    try (unfold EFAULT in Hret; lia);
    rewrite Es; repeat split.
Qed.

(** X3. A write that returns a byte count returns the request clamped to
    the number of bytes the channel already held when the transfer began
    (not to its free space), credits [p_count] by that number in [int]
    arithmetic, and leaves the read position, the size and the session
    counts as they were; nothing is stored in the caller's buffer. *)
Theorem write_credits_what_it_returns :
  forall (filp : file) (src : list byte) (count : Z) (e : env) (p : pipe)
         (ret : Z) (q : pipe) (out : list byte) (tr : list event),
    0 <= count ->
    (forall s, s = p \/ In s (resumed (wakes e)) ->
               0 <= p_count s <= INT_MAX) ->
    pipe_write filp src count e p = (Returned ret q out, tr) ->
    0 <= ret ->
    exists p0,
      (p0 = p \/ In p0 (resumed (wakes e)))
      /\ p_count p0 <> p_size p0
      /\ ret = Z.min count (p_count p0)
      /\ out = []
      /\ p_count q = to_int (p_count p0 + ret)
      /\ p_readp q = p_readp p0
      /\ p_size q = p_size p0
      /\ p_nr_readers q = p_nr_readers p0
      /\ p_nr_writers q = p_nr_writers p0.
Proof.
  intros filp src count e p ret q out tr Hc Hr H Hret.
  unfold pipe_write in H. destruct (lock_intr e).
  { inversion H; subst. unfold ERESTARTSYS in Hret. lia. }
  destruct (write_wait _ (wakes e) p) as [[p0|o] tr0] eqn:W.
  - destruct (write_xfer e src count p0) as [o1 tr1] eqn:X.
    inversion H; subst. clear H.
    destruct (write_wait_entry _ _ _ _ _ W) as [Hin Hne].
    destruct (write_xfer_success _ _ _ _ _ _ _ _ X Hret Hc (Hr p0 Hin))
      as (E1 & E2 & E3).
    exists p0. rewrite E3. simpl. repeat split; auto.
  - inversion H; subst. apply write_wait_stop_negative in W. lia.
Qed.

Lemma write_credits_what_it_returns_witness :
  exists p0,
    (p0 = split8 \/ In p0 [])
    /\ p_count p0 <> p_size p0
    /\ 4 = Z.min 7 (p_count p0)
    /\ @nil byte = []
    /\ p_count after_split8 = to_int (p_count p0 + 4)
    /\ p_readp after_split8 = p_readp p0
    /\ p_size after_split8 = p_size p0
    /\ p_nr_readers after_split8 = p_nr_readers p0
    /\ p_nr_writers after_split8 = p_nr_writers p0.
Proof.
  apply (write_credits_what_it_returns
           (writer 0) bytes_1_5 7 quiet split8 4 after_split8 []
           [MutexLock; CopyFromUser 6 0 2; CopyFromUser 0 2 2; MutexUnlock;
            WakeUp p_readq]).
  - lia.
  - intros s [->|[]]. unfold INT_MAX. simpl. lia.
  - reflexivity.
  - lia.
Defined.

(** * Errors *)

Lemma read_wait_stop_codes (nonblock : bool) (ws : list wake) :
  forall p ret q out tr,
    read_wait nonblock ws p = (inr (Returned ret q out), tr) ->
    (ret = - EAGAIN /\ nonblock = true) \/ ret = - ERESTARTSYS.
Proof.
  induction ws as [|w ws IH]; intros p ret q out tr; rewrite read_wait_eq;
    destruct (negb (p_count p =? 0)); try discriminate;
    destruct nonblock; try (intros H; inversion H; auto; fail);
    try discriminate.
  destruct w; try (intros H; inversion H; auto; fail).
  destruct (read_wait false ws p0) as [r tr1] eqn:W.
  intros H; inversion H; subst. eapply IH; eauto.
Qed.

Lemma write_wait_stop_codes (nonblock : bool) (ws : list wake) :
  forall p ret q out tr,
    write_wait nonblock ws p = (inr (Returned ret q out), tr) ->
    (ret = - EAGAIN /\ nonblock = true) \/ ret = - ERESTARTSYS.
Proof.
  induction ws as [|w ws IH]; intros p ret q out tr; rewrite write_wait_eq;
    destruct (negb (p_count p =? p_size p)); try discriminate;
    destruct nonblock; try (intros H; inversion H; auto; fail);
    try discriminate.
  destruct w; try (intros H; inversion H; auto; fail).
  destruct (write_wait false ws p0) as [r tr1] eqn:W.
  intros H; inversion H; subst. eapply IH; eauto.
Qed.

(** What the transfer of a read returns: [-EFAULT] with the channel as it
    was, or the clamped request. *)
Lemma read_xfer_returns (e : env) (count : Z) (p : pipe) :
  forall ret q out tr,
    read_xfer e count p = (Returned ret q out, tr) ->
    (ret = - EFAULT /\ q = p)
    \/ ret = to_ssize_t (if to_size_t (p_count p) <? count
                         then to_size_t (p_count p) else count).
Proof.
  intros ret q out tr. unfold read_xfer, read_done, xfer_fail.
  repeat match goal with
         | |- context [match copy_to_user ?a ?b ?c ?d with _ => _ end] =>
             destruct (copy_to_user a b c d)
         | |- context [if ?c =? 0 then _ else _] => destruct (c =? 0)
         | |- context [if p_readp p <? p_writep p then _ else _] =>
             destruct (p_readp p <? p_writep p)
         end;
    intros H; inversion H; subst; auto.
Qed.

Lemma write_xfer_returns (e : env) (src : list byte) (count : Z) (p : pipe) :
  forall ret q out tr,
    write_xfer e src count p = (Returned ret q out, tr) ->
    (ret = - EFAULT /\ exists b, q = set_rbuf b p)
    \/ ret = to_ssize_t (if to_size_t (p_count p) <? count
                         then to_size_t (p_count p) else count).
Proof.
  intros ret q out tr. unfold write_xfer, write_done, xfer_fail.
  repeat match goal with
         | |- context [match copy_from_user ?a ?b ?c ?d ?f ?g with _ => _ end] =>
             destruct (copy_from_user a b c d f g)
         | |- context [if ?c =? 0 then _ else _] => destruct (c =? 0)
         | |- context [if p_readp p <? p_writep p then _ else _] =>
             destruct (p_readp p <? p_writep p)
         end;
    intros H; inversion H; subst; eauto.
Qed.

Lemma clamp_nonneg (count pc : Z) :
  0 <= count -> 0 <= pc <= INT_MAX ->
  0 <= to_ssize_t (if to_size_t pc <? count then to_size_t pc else count).
Proof.
  intros Hc Hp.
  rewrite (to_size_t_id pc) by (int_ranges; lia).
  destruct (Z.ltb_spec pc count);
    (rewrite to_ssize_t_id; [lia | int_ranges; lia]).
Qed.

(** X4. A read or a write that returns an error returns [-ERESTARTSYS],
    [-EAGAIN] (only for an [O_NONBLOCK] session) or [-EFAULT], and has
    consumed and produced nothing: a failed read leaves the channel exactly
    as it found it (or as it was handed back at a wake-up); a failed write
    leaves positions, byte count, size and session counts so. The requested
    count is a [size_t] and the byte counts of the channels involved are
    within [int]. *)
Theorem failed_transfer_changes_nothing :
  forall (filp : file) (src : list byte) (count : Z) (e : env) (p : pipe),
    0 <= count ->
    (forall s, s = p \/ In s (resumed (wakes e)) ->
               0 <= p_count s <= INT_MAX) ->
    (forall ret q out tr,
        pipe_read filp count e p = (Returned ret q out, tr) ->
        ret < 0 ->
        (ret = - ERESTARTSYS
         \/ (ret = - EAGAIN /\ has_flag (f_flags filp) O_NONBLOCK = true)
         \/ ret = - EFAULT)
        /\ (q = p \/ In q (resumed (wakes e))))
    /\
    (forall ret q out tr,
        pipe_write filp src count e p = (Returned ret q out, tr) ->
        ret < 0 ->
        (ret = - ERESTARTSYS
         \/ (ret = - EAGAIN /\ has_flag (f_flags filp) O_NONBLOCK = true)
         \/ ret = - EFAULT)
        /\ exists p0,
            (p0 = p \/ In p0 (resumed (wakes e)))
            /\ same_cursor q p0
            /\ p_size q = p_size p0
            /\ p_nr_readers q = p_nr_readers p0
            /\ p_nr_writers q = p_nr_writers p0).
Proof.
  intros filp src count e p Hc Hr. split; intros ret q out tr H Hret.
  - unfold pipe_read in H. destruct (lock_intr e).
    { inversion H; subst. auto. }
    destruct (read_wait _ (wakes e) p) as [[p0|o] tr0] eqn:W.
    + destruct (read_xfer e count p0) as [o1 tr1] eqn:X.
      inversion H; subst. clear H.
      destruct (read_wait_entry _ _ _ _ _ W) as [Hin _].
      destruct (read_xfer_returns _ _ _ _ _ _ _ X) as [[-> ->]| ->];
        [auto|].
      pose proof (clamp_nonneg count (p_count p0) Hc (Hr p0 Hin)). lia.
    + inversion H; subst. split.
      * destruct (read_wait_stop_codes _ _ _ _ _ _ _ W) as [[-> HN]| ->];
          auto.
      * apply (read_wait_stop_state _ _ _ _ _ _ _ W).
  - unfold pipe_write in H. destruct (lock_intr e).
    { inversion H; subst. split; [auto|].
      exists q. unfold same_cursor. auto 10. }
    destruct (write_wait _ (wakes e) p) as [[p0|o] tr0] eqn:W.
    + destruct (write_xfer e src count p0) as [o1 tr1] eqn:X.
      inversion H; subst. clear H.
      destruct (write_wait_entry _ _ _ _ _ W) as [Hin _].
      destruct (write_xfer_returns _ _ _ _ _ _ _ _ X) as [[-> [b ->]]| ->].
      * split; [auto|]. exists p0. unfold same_cursor. simpl. auto 10.
      * pose proof (clamp_nonneg count (p_count p0) Hc (Hr p0 Hin)). lia.
    + inversion H; subst. split.
      * destruct (write_wait_stop_codes _ _ _ _ _ _ _ W) as [[-> HN]| ->];
          auto.
      * exists q. unfold same_cursor.
        pose proof (write_wait_stop_state _ _ _ _ _ _ _ W). auto 10.
Qed.

Lemma failed_transfer_changes_nothing_witness :
  ((- EFAULT = - ERESTARTSYS
    \/ (- EFAULT = - EAGAIN /\ has_flag (f_flags (reader 0)) O_NONBLOCK = true)
    \/ - EFAULT = - EFAULT)
   /\ (full8 = full8 \/ In full8 []))
  /\ exists ret,
      fst (pipe_write (writer O_NONBLOCK) bytes_1_5 5 quiet full8)
      = Returned ret full8 []
      /\ (ret = - ERESTARTSYS
          \/ (ret = - EAGAIN
              /\ has_flag (f_flags (writer O_NONBLOCK)) O_NONBLOCK = true)
          \/ ret = - EFAULT).
Proof.
  assert (R : forall e s, s = full8 \/ In s (resumed (wakes e)) ->
                          wakes e = [] -> 0 <= p_count s <= INT_MAX).
  { intros e s [->|HI] E; [unfold INT_MAX; simpl; lia|].
    rewrite E in HI. destruct HI. }
  split.
  - destruct (failed_transfer_changes_nothing
                (reader 0) [] 3 (mkenv false false [] 2 0) full8)
      as [HR _]; [lia | intros s Hs; apply (R _ s Hs eq_refl) |].
    apply (HR (- EFAULT) full8 [x01]
              [MutexLock; CopyToUser 0 3; Faulted 2; MutexUnlock]);
      [reflexivity | unfold EFAULT; lia].
  - destruct (failed_transfer_changes_nothing
                (writer O_NONBLOCK) bytes_1_5 5 quiet full8)
      as [_ HW]; [lia | intros s Hs; apply (R _ s Hs eq_refl) |].
    exists (- EAGAIN). split; [reflexivity|].
    apply (HW (- EAGAIN) full8 [] [MutexLock; MutexUnlock]);
      [reflexivity | unfold EAGAIN; lia].
Defined.

(** * Open *)

(** The three ways [pipe_open] can end. *)
Lemma pipe_open_cases :
  forall (pipe_size : Z) (filp : file) (e : env) (p : pipe)
         (ret : Z) (q : pipe) (out : list byte) (tr : list event),
    pipe_open pipe_size filp e p = (Returned ret q out, tr) ->
    (ret = - ERESTARTSYS /\ lock_intr e = true /\ q = p)
    \/ (ret = - ENOMEM /\ lock_intr e = false /\ p_rbuf p = None /\ q = p)
    \/ (ret = 0
        /\ lock_intr e = false
        /\ idle pipe_size q
        /\ p_nr_readers q =
             (if has_flag (f_mode filp) FMODE_READ
              then to_int (p_nr_readers p + 1) else p_nr_readers p)
        /\ p_nr_writers q =
             (if has_flag (f_mode filp) FMODE_WRITE
              then to_int (p_nr_writers p + 1) else p_nr_writers p)
        /\ match p_rbuf p with
           | Some b => p_rbuf q = Some b /\ tr = [MutexLock; MutexUnlock]
           | None =>
               p_rbuf q = Some (repeat x00 (Z.to_nat (to_size_t pipe_size)))
               /\ tr = [MutexLock; Kzalloc (to_size_t pipe_size); MutexUnlock]
           end).
Proof.
  intros pipe_size filp e p ret q out tr. unfold pipe_open.
  destruct (lock_intr e).
  { intros H; inversion H; subst. auto. }
  destruct (p_rbuf p) as [b|] eqn:B.
  - intros H; inversion H; subst. right; right.
    unfold idle. simpl. auto 10.
  - unfold kzalloc.
    destruct (alloc_fail e || (2 ^ 63 <=? to_size_t pipe_size)).
    + intros H; inversion H; subst. auto 10.
    + intros H; inversion H; subst. right; right.
      unfold idle. simpl. auto 10.
Qed.

(** X5. [pipe_open] either fails without touching the channel
    ([-ERESTARTSYS] when the lock wait is interrupted, [-ENOMEM] when there
    was no buffer and [kzalloc] fails) or returns 0 with the ring reset:
    [p_count], [p_readp] and [p_writep] are 0 and [p_size] is [pipe_size]
    whatever the channel held. A buffer that exists is kept as it is and not
    allocated again, so an open on a channel in use drops the bytes that
    were buffered: the next non-blocking read finds nothing and returns
    [-EAGAIN]. Each session count goes up by one exactly when its mode bit
    is set. *)
Theorem open_fails_cleanly_or_resets_the_ring :
  forall (pipe_size : Z) (filp : file) (e : env) (p : pipe)
         (ret : Z) (q : pipe) (out : list byte) (tr : list event),
    pipe_open pipe_size filp e p = (Returned ret q out, tr) ->
    ((ret = - ERESTARTSYS /\ lock_intr e = true /\ q = p)
     \/ (ret = - ENOMEM /\ lock_intr e = false /\ p_rbuf p = None /\ q = p)
     \/ (ret = 0
         /\ lock_intr e = false
         /\ idle pipe_size q
         /\ p_nr_readers q =
              (if has_flag (f_mode filp) FMODE_READ
               then to_int (p_nr_readers p + 1) else p_nr_readers p)
         /\ p_nr_writers q =
              (if has_flag (f_mode filp) FMODE_WRITE
               then to_int (p_nr_writers p + 1) else p_nr_writers p)
         /\ match p_rbuf p with
            | Some b => p_rbuf q = Some b /\ tr = [MutexLock; MutexUnlock]
            | None =>
                p_rbuf q = Some (repeat x00 (Z.to_nat (to_size_t pipe_size)))
                /\ tr = [MutexLock; Kzalloc (to_size_t pipe_size);
                         MutexUnlock]
            end))
    /\ (ret = 0 ->
        forall (f : file) (count : Z) (e' : env),
          lock_intr e' = false ->
          has_flag (f_flags f) O_NONBLOCK = true ->
          pipe_read f count e' q =
            (Returned (- EAGAIN) q [], [MutexLock; MutexUnlock])).
Proof.
  intros pipe_size filp e p ret q out tr H. split.
  - exact (pipe_open_cases _ _ _ _ _ _ _ _ H).
  - intros -> f count e' HL HN.
    apply pipe_open_idle in H. destruct H as (HC & _).
    unfold pipe_read. rewrite HL, HN, read_wait_eq, HC. reflexivity.
Qed.

Lemma open_fails_cleanly_or_resets_the_ring_witness :
  idle 8 (mkpipe (p_rbuf split8) 0 0 0 8 2 2)
  /\ p_rbuf (mkpipe (p_rbuf split8) 0 0 0 8 2 2) = p_rbuf split8
  /\ pipe_read (reader O_NONBLOCK) 4 quiet (mkpipe (p_rbuf split8) 0 0 0 8 2 2)
     = (Returned (- EAGAIN) (mkpipe (p_rbuf split8) 0 0 0 8 2 2) [],
        [MutexLock; MutexUnlock]).
Proof.
  destruct (open_fails_cleanly_or_resets_the_ring
              8 (rdwr 0) quiet split8 0 (mkpipe (p_rbuf split8) 0 0 0 8 2 2)
              [] [MutexLock; MutexUnlock] eq_refl)
    as [[(H & _) | [(H & _) | (_ & _ & HI & _ & _ & HB & _)]] HR];
    try discriminate H.
  split; [exact HI | split; [exact HB|]].
  apply (HR eq_refl (reader O_NONBLOCK) 4 quiet); reflexivity.
Defined.

(** * Sessions and the buffer *)

Lemma opens_for_cons (flag : Z) (f : file) (fs : list file) :
  opens_for flag (f :: fs) =
  (if has_flag (f_mode f) flag then 1 else 0) + opens_for flag fs.
Proof.
  unfold opens_for. cbn [filter].
  destruct (has_flag (f_mode f) flag); cbn [length]; lia.
Qed.

Lemma opens_for_app (flag : Z) (a b : list file) :
  opens_for flag (a ++ b) = opens_for flag a + opens_for flag b.
Proof. unfold opens_for. rewrite filter_app, length_app. lia. Qed.

Lemma opens_for_bound (flag : Z) (fs : list file) :
  0 <= opens_for flag fs <= Z.of_nat (length fs).
Proof.
  unfold opens_for.
  pose proof (filter_length_le (fun f => has_flag (f_mode f) flag) fs). lia.
Qed.

(** Sessions opened for reading or writing are all counted: no session
    left means both counts are 0, and conversely. *)
Lemma usable_sessions_counted (fs : list file) :
  Forall (fun f => usable f = true) fs ->
  (opens_for FMODE_READ fs + opens_for FMODE_WRITE fs = 0 <-> fs = []).
Proof.
  intros HU. split.
  - destruct fs as [|f fs]; [reflexivity|]. intros H. exfalso.
    inversion HU as [|f' fs' Hf Hfs]; subst. unfold usable in Hf.
    rewrite !opens_for_cons in H.
    pose proof (opens_for_bound FMODE_READ fs).
    pose proof (opens_for_bound FMODE_WRITE fs).
    destruct (has_flag (f_mode f) FMODE_READ);
      destruct (has_flag (f_mode f) FMODE_WRITE); simpl in Hf;
      try discriminate; lia.
  - intros ->. reflexivity.
Qed.

Lemma to_int_zero_iff (x : Z) :
  0 <= x <= 2 * INT_MAX -> (to_int x = 0 <-> x = 0).
Proof.
  intros H. unfold to_int, wrap. change (2 ^ (32 - 1)) with (2 ^ 31).
  int_ranges. split; intros E.
  - destruct (Z_lt_le_dec x 2147483648) as [L|L].
    + rewrite Z.mod_small in E by lia. lia.
    + replace (x + 2147483648)
        with (x - 2147483648 + 1 * 4294967296) in E by ring.
      rewrite Z.mod_add, Z.mod_small in E by lia. lia.
  - rewrite E. reflexivity.
Qed.

Lemma read_xfer_keeps (e : env) (count : Z) (p : pipe) :
  forall ret q out tr,
    read_xfer e count p = (Returned ret q out, tr) ->
    p_rbuf q = p_rbuf p
    /\ p_nr_readers q = p_nr_readers p
    /\ p_nr_writers q = p_nr_writers p.
Proof.
  intros ret q out tr. unfold read_xfer, read_done, xfer_fail.
  repeat match goal with
         | |- context [match copy_to_user ?a ?b ?c ?d with _ => _ end] =>
             destruct (copy_to_user a b c d)
         | |- context [if ?c =? 0 then _ else _] => destruct (c =? 0)
         | |- context [if p_readp p <? p_writep p then _ else _] =>
             destruct (p_readp p <? p_writep p)
         end;
    intros H; inversion H; subst; simpl; auto.
Qed.

(** A user copy into the buffer neither creates nor frees the buffer. *)
Lemma copy_from_user_presence (left : Z) (src : list byte) (uoff : Z)
      (rbuf : option (list byte)) (off n : Z) :
  match copy_from_user left src uoff rbuf off n with
  | Copied b | Partial _ b => b = None <-> rbuf = None
  | Stray => True
  end.
Proof.
  unfold copy_from_user. destruct (n =? 0); [tauto|].
  destruct rbuf as [b|]; [|exact I].
  destruct (inside b off n); [|exact I].
  match goal with |- context [if ?c then _ else _] => destruct c end;
    split; discriminate.
Qed.

Lemma write_xfer_keeps (e : env) (src : list byte) (count : Z) (p : pipe) :
  forall ret q out tr,
    write_xfer e src count p = (Returned ret q out, tr) ->
    (p_rbuf q = None <-> p_rbuf p = None)
    /\ p_nr_readers q = p_nr_readers p
    /\ p_nr_writers q = p_nr_writers p.
Proof.
  intros ret q out tr. unfold write_xfer, write_done, xfer_fail.
  destruct (p_readp p <? p_writep p).
  - match goal with
    | |- context [copy_from_user ?a ?b ?c ?d ?f ?g] =>
        pose proof (copy_from_user_presence a b c d f g) as P1;
        destruct (copy_from_user a b c d f g) as [b1|r1 b1|]
    end; try discriminate.
    + match goal with
      | |- context [if ?c =? 0 then _ else _] => destruct (c =? 0)
      end.
      * intros H; inversion H; subst; simpl; auto.
      * match goal with
        | |- context [copy_from_user ?a ?b ?c ?d ?f ?g] =>
            pose proof (copy_from_user_presence a b c d f g) as P2;
            destruct (copy_from_user a b c d f g) as [b2|r2 b2|]
        end; try discriminate;
          intros H; inversion H; subst; simpl; intuition.
    + intros H; inversion H; subst; simpl; auto.
  - match goal with
    | |- context [copy_from_user ?a ?b ?c ?d ?f ?g] =>
        pose proof (copy_from_user_presence a b c d f g) as P1;
        destruct (copy_from_user a b c d f g) as [b1|r1 b1|]
    end; try discriminate;
      intros H; inversion H; subst; simpl; auto.
Qed.

(** Reads and writes leave the session counts alone and neither allocate
    nor free the buffer. *)
Lemma transfers_keep_sessions (filp : file) (src : list byte) (count : Z)
      (e : env) (p : pipe) :
  forall ret q out tr,
    pipe_read filp count e p = (Returned ret q out, tr)
    \/ pipe_write filp src count e p = (Returned ret q out, tr) ->
    exists p0,
      (p0 = p \/ In p0 (resumed (wakes e)))
      /\ (p_rbuf q = None <-> p_rbuf p0 = None)
      /\ p_nr_readers q = p_nr_readers p0
      /\ p_nr_writers q = p_nr_writers p0.
Proof.
  intros ret q out tr [H|H].
  - unfold pipe_read in H. destruct (lock_intr e).
    { inversion H; subst. exists q. intuition. }
    destruct (read_wait _ (wakes e) p) as [[p0|o] tr0] eqn:W.
    + destruct (read_xfer e count p0) as [o1 tr1] eqn:X.
      inversion H; subst. clear H.
      destruct (read_wait_entry _ _ _ _ _ W) as [Hin _].
      destruct (read_xfer_keeps _ _ _ _ _ _ _ X) as (E1 & E2 & E3).
      exists p0. rewrite E1. intuition.
    + inversion H; subst. exists q.
      pose proof (read_wait_stop_state _ _ _ _ _ _ _ W). intuition.
  - unfold pipe_write in H. destruct (lock_intr e).
    { inversion H; subst. exists q. intuition. }
    destruct (write_wait _ (wakes e) p) as [[p0|o] tr0] eqn:W.
    + destruct (write_xfer e src count p0) as [o1 tr1] eqn:X.
      inversion H; subst. clear H.
      destruct (write_wait_entry _ _ _ _ _ W) as [Hin _].
      destruct (write_xfer_keeps _ _ _ _ _ _ _ _ X) as (E1 & E2 & E3).
      exists p0. intuition.
    + inversion H; subst. exists q.
      pose proof (write_wait_stop_state _ _ _ _ _ _ _ W). intuition.
Qed.

Lemma lifecycle_accounted (pipe_size : Z) (p : pipe) (fs : list file) :
  lifecycle pipe_size p fs ->
  accounted p fs
  /\ Forall (fun f => usable f = true) fs
  /\ Z.of_nat (length fs) <= INT_MAX.
Proof.
  intros L.
  induction L as [| p fs filp e ret q out tr L IH HU HB HO
                  | p fs1 filp fs2 ret q out tr L IH HR
                  | p fs filp count e ret q out tr L IH HI LS IHS HR
                  | p fs filp src count e ret q out tr L IH HI LS IHS HW].
  - unfold accounted, INT_MAX. repeat split; auto. simpl. lia.
  - destruct IH as ((IR & IW & IB) & IU & IL).
    pose proof (opens_for_bound FMODE_READ fs) as BR.
    pose proof (opens_for_bound FMODE_WRITE fs) as BW.
    destruct (pipe_open_cases _ _ _ _ _ _ _ _ HO)
      as [(-> & _ & ->) | [(-> & _ & _ & ->) | (-> & _ & _ & ER & EW & EB)]];
      simpl; unfold accounted; auto.
    repeat split.
    + rewrite ER, opens_for_cons, IR.
      destruct (has_flag (f_mode filp) FMODE_READ); [|lia].
      rewrite to_int_id by (int_ranges; lia). lia.
    + rewrite EW, opens_for_cons, IW.
      destruct (has_flag (f_mode filp) FMODE_WRITE); [|lia].
      rewrite to_int_id by (int_ranges; lia). lia.
    + intros N. destruct (p_rbuf p); destruct EB as [EB _];
        rewrite EB in N; discriminate.
    + discriminate.
    + constructor; assumption.
    + simpl length. lia.
  - destruct IH as ((IR & IW & IB) & IU & IL).
    apply Forall_app in IU. destruct IU as [U1 U2].
    inversion U2 as [|f' fs' Uf U2']; subst.
    assert (U : Forall (fun f => usable f = true) (fs1 ++ fs2))
      by (apply Forall_app; auto).
    rewrite length_app in IL. simpl length in IL.
    assert (IL' : Z.of_nat (length (fs1 ++ fs2)) < INT_MAX)
      by (rewrite length_app; lia).
    rewrite opens_for_app, opens_for_cons in IR, IW.
    pose proof (opens_for_bound FMODE_READ (fs1 ++ fs2)) as BR.
    pose proof (opens_for_bound FMODE_WRITE (fs1 ++ fs2)) as BW.
    rewrite opens_for_app in BR, BW.
    pose proof (opens_for_bound FMODE_READ fs1).
    pose proof (opens_for_bound FMODE_READ fs2).
    pose proof (opens_for_bound FMODE_WRITE fs1).
    pose proof (opens_for_bound FMODE_WRITE fs2).
    unfold pipe_release in HR.
    assert (ER : (if has_flag (f_mode filp) FMODE_READ
                  then to_int (p_nr_readers p - 1) else p_nr_readers p)
                 = opens_for FMODE_READ (fs1 ++ fs2)).
    { rewrite opens_for_app, IR.
      destruct (has_flag (f_mode filp) FMODE_READ); [|lia].
      rewrite to_int_id by (int_ranges; lia). lia. }
    assert (EW : (if has_flag (f_mode filp) FMODE_WRITE
                  then to_int (p_nr_writers p - 1) else p_nr_writers p)
                 = opens_for FMODE_WRITE (fs1 ++ fs2)).
    { rewrite opens_for_app, IW.
      destruct (has_flag (f_mode filp) FMODE_WRITE); [|lia].
      rewrite to_int_id by (int_ranges; lia). lia. }
    rewrite ER, EW in HR. inversion HR; subst. clear HR.
    split; [|split; [exact U | lia]].
    unfold accounted. simpl. repeat split.
    + pose proof (usable_sessions_counted (fs1 ++ fs2) U) as [C1 C2].
      rewrite !opens_for_app in C1.
      destruct (Z.eqb_spec
                  (to_int (opens_for FMODE_READ (fs1 ++ fs2)
                           + opens_for FMODE_WRITE (fs1 ++ fs2))) 0)
        as [E|E].
      * intros _. apply C1. rewrite <- !opens_for_app.
        apply to_int_zero_iff; [|exact E].
        rewrite !opens_for_app. int_ranges. lia.
      * intros N. apply IB in N.
        destruct fs1; discriminate.
    + intros E. rewrite E. reflexivity.
  - destruct IH as (IA & IU & IL).
    split; [|split; assumption].
    destruct (transfers_keep_sessions filp [] count e p ret q out tr
                (or_introl HR)) as (p0 & Hin & EB & ER & EW).
    assert (A0 : accounted p0 fs).
    { destruct Hin as [->|Hin]; [exact IA | apply (IHS _ Hin)]. }
    destruct A0 as (AR & AW & AB). unfold accounted.
    rewrite ER, EW, EB. auto.
  - destruct IH as (IA & IU & IL).
    split; [|split; assumption].
    destruct (transfers_keep_sessions filp src count e p ret q out tr
                (or_intror HW)) as (p0 & Hin & EB & ER & EW).
    assert (A0 : accounted p0 fs).
    { destruct Hin as [->|Hin]; [exact IA | apply (IHS _ Hin)]. }
    destruct A0 as (AR & AW & AB). unfold accounted.
    rewrite ER, EW, EB. auto.
Qed.

(** X6. Through any history of opens, releases, reads and writes on a pipe
    device, by sessions opened for reading or writing, [p_nr_readers] and
    [p_nr_writers] are the numbers of open sessions that have the read and
    the write mode bit, and the ring buffer is allocated exactly while at
    least one session is open: the first open allocates it, the last release
    frees it, and nothing in between frees or replaces it. *)
Theorem sessions_are_accounted_for :
  forall (pipe_size : Z) (p : pipe) (fs : list file),
    lifecycle pipe_size p fs ->
    p_nr_readers p = opens_for FMODE_READ fs
    /\ p_nr_writers p = opens_for FMODE_WRITE fs
    /\ (p_rbuf p = None <-> fs = []).
Proof.
  intros pipe_size p fs L.
  exact (proj1 (lifecycle_accounted pipe_size p fs L)).
Qed.

Lemma sessions_are_accounted_for_witness :
  p_nr_readers (opened 8) = opens_for FMODE_READ [rdwr 0]
  /\ p_nr_writers (opened 8) = opens_for FMODE_WRITE [rdwr 0]
  /\ (p_rbuf (opened 8) = None <-> [rdwr 0] = []).
Proof.
  apply (sessions_are_accounted_for 8 (opened 8) [rdwr 0]).
  apply (life_write 8 (opened 8) [rdwr 0] (rdwr 0) bytes_1_5 5 quiet 0
                    (opened 8) []
                    [MutexLock; CopyFromUser 0 0 0; MutexUnlock;
                     WakeUp p_readq]).
  - apply (life_open 8 pipe0 [] (rdwr 0) quiet 0 (opened 8) []
                     [MutexLock; Kzalloc 8; MutexUnlock]).
    + apply life_init.
    + reflexivity.
    + unfold INT_MAX. simpl. lia.
    + reflexivity.
  - left. reflexivity.
  - intros s [].
  - reflexivity.
Defined.

(** * Contiguous transfers *)

Lemma firstn_plus (n m : nat) :
  forall l : list byte,
    firstn (n + m) l = firstn n l ++ firstn m (skipn n l).
Proof.
  induction n as [|n IH]; intros l; [reflexivity|].
  destruct l as [|x l]; simpl.
  - rewrite firstn_nil. reflexivity.
  - rewrite IH. reflexivity.
Qed.

Lemma load_app (b : list byte) (off n m : Z) :
  0 <= off -> 0 <= n -> 0 <= m ->
  load b off (n + m) = load b off n ++ load b (off + n) m.
Proof.
  intros Ho Hn Hm. unfold load.
  rewrite (Z2Nat.inj_add n m), (Z2Nat.inj_add off n) by lia.
  rewrite firstn_plus, skipn_skipn.
  rewrite (Nat.add_comm (Z.to_nat n) (Z.to_nat off)). reflexivity.
Qed.

Lemma load_whole (src : list byte) : load src 0 (len src) = src.
Proof. unfold load, len. simpl. rewrite Nat2Z.id. apply firstn_all. Qed.

(** A read with [p_readp < p_writep]: one copy from [p_readp], and
    [p_readp] moved past it, back to 0 when it reaches the end. *)
Lemma read_xfer_contiguous (e : env) (count : Z) (p : pipe) (b : list byte) :
  top_left e = 0 ->
  p_rbuf p = Some b -> len b = p_size p -> p_size p <= INT_MAX ->
  0 <= p_readp p -> p_readp p < p_writep p ->
  0 < p_count p <= INT_MAX ->
  0 <= count ->
  let n := Z.min count (p_count p) in
  p_readp p + n <= p_size p ->
  read_xfer e count p =
    (Returned n
       (set_count (p_count p - n)
          (set_readp (if p_readp p + n =? p_size p then 0
                      else p_readp p + n) p))
       (load b (p_readp p) n),
     [CopyToUser (p_readp p) n; MutexUnlock; WakeUp p_writeq]).
Proof.
  intros Ht Hbuf Hlen Hmax Hr Hrw Hc Hcount n Hn.
  unfold read_xfer. rewrite Ht, Hbuf.
  assert (E1 : to_size_t (p_count p) = p_count p).
  { apply to_size_t_id. int_ranges. lia. }
  rewrite E1.
  assert (En : (if p_count p <? count then p_count p else count) = n).
  { unfold n. destruct (Z.ltb_spec (p_count p) count); lia. }
  rewrite En.
  destruct (Z.ltb_spec (p_readp p) (p_writep p)); [|lia].
  assert (C : copy_to_user 0 (Some b) (p_readp p) n
              = Copied (load b (p_readp p) n)).
  { destruct (Z.eq_dec n 0) as [Z0|Z0].
    - rewrite Z0. reflexivity.
    - apply copy_to_user_ok; unfold n in *; lia. }
  rewrite C. unfold read_done. cbn [p_count set_readp].
  rewrite (to_int_id (p_readp p + n)) by (unfold n in *; int_ranges; lia).
  rewrite (to_int_id (p_count p - n)) by (unfold n in *; int_ranges; lia).
  rewrite (to_ssize_t_id n) by (unfold n in *; int_ranges; lia).
  reflexivity.
Qed.

(** X7. Reads compose. In a channel whose [p_count = p_writep - p_readp]
    bytes lie in one piece from [p_readp], a read of [a] bytes followed by
    a read of [c] bytes, [a + c] no more than what is buffered, delivers
    the same bytes, in the same order, and leaves the same channel as one
    read of [a + c] bytes: the bytes at offsets [p_readp .. p_readp + a + c)
    of the buffer, with [p_readp] moved past them (to 0 at the end of the
    buffer) and [p_count] debited by [a + c]. *)
Theorem consecutive_reads_compose :
  forall (f1 f2 f3 : file) (e1 e2 e3 : env) (a c : Z) (p : pipe)
         (b : list byte),
    lock_intr e1 = false -> top_left e1 = 0 ->
    lock_intr e2 = false -> top_left e2 = 0 ->
    lock_intr e3 = false -> top_left e3 = 0 ->
    p_rbuf p = Some b -> len b = p_size p -> p_size p <= INT_MAX ->
    0 <= p_readp p -> p_readp p < p_writep p -> p_writep p <= p_size p ->
    p_count p = p_writep p - p_readp p ->
    0 <= a -> 0 < c -> a + c <= p_count p ->
    let q1 := set_count (p_count p - a) (set_readp (p_readp p + a) p) in
    let q2 := set_count (p_count p - (a + c))
                (set_readp (if p_readp p + (a + c) =? p_size p then 0
                            else p_readp p + (a + c)) p) in
    pipe_read f1 a e1 p =
      (Returned a q1 (load b (p_readp p) a),
       [MutexLock; CopyToUser (p_readp p) a; MutexUnlock; WakeUp p_writeq])
    /\ pipe_read f2 c e2 q1 =
         (Returned c q2 (load b (p_readp p + a) c),
          [MutexLock; CopyToUser (p_readp p + a) c; MutexUnlock;
           WakeUp p_writeq])
    /\ pipe_read f3 (a + c) e3 p =
         (Returned (a + c) q2
            (load b (p_readp p) a ++ load b (p_readp p + a) c),
          [MutexLock; CopyToUser (p_readp p) (a + c); MutexUnlock;
           WakeUp p_writeq]).
Proof.
  intros f1 f2 f3 e1 e2 e3 a c p b L1 T1 L2 T2 L3 T3 Hbuf Hlen Hmax Hr Hrw Hw
         Hc Ha Hcc Hac q1 q2.
  repeat split.
  - unfold pipe_read. rewrite L1, read_wait_ready by lia.
    rewrite (read_xfer_contiguous e1 a p b)
      by (first [assumption | lia]).
    rewrite Z.min_l by lia.
    destruct (Z.eqb_spec (p_readp p + a) (p_size p)); [lia|].
    reflexivity.
  - unfold pipe_read. rewrite L2.
    rewrite read_wait_ready by (unfold q1; simpl; lia).
    rewrite (read_xfer_contiguous e2 c q1 b);
      unfold q1; cbn [p_rbuf p_readp p_writep p_count p_size set_count
                      set_readp];
      try assumption; try lia.
    rewrite Z.min_l by lia.
    unfold q2, set_count, set_readp.
    cbn [p_rbuf p_readp p_writep p_count p_size p_nr_readers p_nr_writers].
    replace (p_readp p + a + c) with (p_readp p + (a + c)) by lia.
    replace (p_count p - a - c) with (p_count p - (a + c)) by lia.
    replace (p_readp p + (a + c) - a) with (p_readp p + c) by lia.
    reflexivity.
  - unfold pipe_read. rewrite L3, read_wait_ready by lia.
    rewrite (read_xfer_contiguous e3 (a + c) p b)
      by (first [assumption | lia]).
    rewrite Z.min_l by lia.
    rewrite load_app by lia. reflexivity.
Qed.

Lemma consecutive_reads_compose_witness :
  pipe_read (reader 0) 1 quiet split8 =
    (Returned 1 (set_count 3 (set_readp 3 split8)) [x0a],
     [MutexLock; CopyToUser 2 1; MutexUnlock; WakeUp p_writeq])
  /\ pipe_read (reader 0) 2 quiet (set_count 3 (set_readp 3 split8)) =
       (Returned 2 (set_count 1 (set_readp 5 split8)) [x0b; x0c],
        [MutexLock; CopyToUser 3 2; MutexUnlock; WakeUp p_writeq])
  /\ pipe_read (reader 0) 3 quiet split8 =
       (Returned 3 (set_count 1 (set_readp 5 split8)) [x0a; x0b; x0c],
        [MutexLock; CopyToUser 2 3; MutexUnlock; WakeUp p_writeq]).
Proof.
  apply (consecutive_reads_compose
           (reader 0) (reader 0) (reader 0) quiet quiet quiet 1 2 split8
           [x00; x00; x0a; x0b; x0c; x0d; x00; x00]);
    try reflexivity; try (unfold INT_MAX; simpl; lia).
Defined.

(** A write with [p_readp >= p_writep]: one copy to [p_writep], and
    [p_writep] moved past it, without wrapping. *)
Lemma write_xfer_contiguous (e : env) (src : list byte) (k : Z) (p : pipe)
      (b : list byte) :
  top_left e = 0 ->
  p_rbuf p = Some b -> len b = p_size p -> p_size p <= INT_MAX ->
  0 <= p_writep p -> p_writep p <= p_readp p ->
  0 <= p_count p <= INT_MAX ->
  len src = k -> 0 < k -> k <= p_count p ->
  p_writep p + k <= p_size p ->
  write_xfer e src k p =
    (Returned k
       (mkpipe (Some (store b (p_writep p) src))
               (p_readp p) (p_writep p + k) (to_int (p_count p + k))
               (p_size p) (p_nr_readers p) (p_nr_writers p))
       [],
     [CopyFromUser (p_writep p) 0 k; MutexUnlock; WakeUp p_readq]).
Proof.
  intros Ht Hbuf Hlen Hmax Hw Hwr Hc Hs Hk Hkc Hfit.
  unfold write_xfer. rewrite Ht, Hbuf.
  rewrite (to_size_t_id (p_count p)) by (int_ranges; lia).
  destruct (Z.ltb_spec (p_count p) k); [lia|].
  destruct (Z.ltb_spec (p_readp p) (p_writep p)); [lia|].
  rewrite copy_from_user_ok by lia.
  rewrite <- Hs, load_whole, Hs.
  unfold write_done. cbn.
  rewrite (to_int_id (p_writep p + k)) by (int_ranges; lia).
  rewrite (to_ssize_t_id k) by (int_ranges; lia).
  reflexivity.
Qed.

(** The buffer after a write in one piece at [w], below the read position
    [r], read back from [r] through the end and on to the new write
    position: what was buffered, then the bytes written. *)
Lemma contiguous_readback (b src : list byte) (r w size k : Z) :
  len b = size ->
  0 <= w -> w < r -> r < size ->
  len src = k -> 0 < k -> w + k <= r ->
  let b' := store b w src in
  len b' = size
  /\ load b' r (size - r) ++ load b' 0 (w + k)
     = load b r (size - r) ++ load b 0 w ++ src.
Proof.
  intros Hb Hw Hwr Hr Hs Hk Hfit b'.
  assert (L1 : length b' = length b).
  { unfold b'. apply length_store; unfold len in *; lia. }
  split; [unfold len in *; lia|].
  apply nth_error_ext. intros i.
  assert (L2 : length (load b' r (size - r)) = Z.to_nat (size - r)).
  { apply length_load; unfold len in *; lia. }
  assert (L3 : length (load b r (size - r)) = Z.to_nat (size - r)).
  { apply length_load; unfold len in *; lia. }
  assert (L4 : length (load b 0 w) = Z.to_nat w).
  { apply length_load; unfold len in *; lia. }
  rewrite !nth_error_app, L2, L3, L4, !nth_error_load.
  unfold b'. rewrite !nth_error_store by (unfold len in *; lia).
  unfold len in *.
  by_cases.
Qed.

(** X8. A write into the free space between the write position and a read
    position above it is read back in order. In a channel whose bytes lie
    in [p_readp, p_size) and [0, p_writep), with [p_writep < p_readp], a
    write of [k] bytes, [k] no more than the bytes buffered and no more than
    the free space, is one copy to [p_writep] and moves [p_writep] past it;
    the read of everything buffered that follows returns the bytes buffered
    before, from [p_readp] to the end and then from offset 0, followed by
    the [k] bytes written, and leaves the channel empty with
    [p_readp = p_writep]. *)
Theorem contiguous_write_reads_back :
  forall (f1 f2 : file) (e1 e2 : env) (src : list byte) (k : Z) (p : pipe)
         (b : list byte),
    lock_intr e1 = false -> top_left e1 = 0 ->
    lock_intr e2 = false -> top_left e2 = 0 -> bot_left e2 = 0 ->
    p_rbuf p = Some b -> len b = p_size p -> p_size p <= INT_MAX ->
    0 <= p_writep p -> p_writep p < p_readp p -> p_readp p < p_size p ->
    p_count p = p_size p - p_readp p + p_writep p ->
    len src = k -> 0 < k -> k <= p_count p -> k <= p_size p - p_count p ->
    let q := mkpipe (Some (store b (p_writep p) src))
                    (p_readp p) (p_writep p + k) (p_count p + k) (p_size p)
                    (p_nr_readers p) (p_nr_writers p) in
    pipe_write f1 src k e1 p =
      (Returned k q [],
       [MutexLock; CopyFromUser (p_writep p) 0 k; MutexUnlock;
        WakeUp p_readq])
    /\ pipe_read f2 (p_count q) e2 q =
         (Returned (p_count q)
            (set_count 0 (set_readp (p_writep q) q))
            (load b (p_readp p) (p_size p - p_readp p)
             ++ load b 0 (p_writep p) ++ src),
          [MutexLock; CopyToUser (p_readp p) (p_size p - p_readp p);
           CopyToUser 0 (p_writep q); MutexUnlock; WakeUp p_writeq]).
Proof.
  intros f1 f2 e1 e2 src k p b L1 T1 L2 T2 B2 Hbuf Hlen Hmax Hw Hwr Hr Hc Hs
         Hk Hkc Hfree q.
  split.
  - unfold pipe_write. rewrite L1, write_wait_ready by lia.
    rewrite (write_xfer_contiguous e1 src k p b)
      by (first [assumption | lia]).
    rewrite (to_int_id (p_count p + k)) by (int_ranges; lia).
    reflexivity.
  - destruct (contiguous_readback b src (p_readp p) (p_writep p) (p_size p) k)
      as [Lq Eq]; try lia.
    unfold pipe_read. rewrite L2.
    rewrite read_wait_ready by (unfold q; simpl; lia).
    rewrite (read_xfer_wrapped e2 (p_count q) q _ T2 B2 eq_refl);
      cbv zeta; unfold q; cbn [p_rbuf p_readp p_writep p_count p_size];
      try exact Lq; try (int_ranges; lia).
    rewrite Z.min_id, Z.sub_diag.
    replace (p_count p + k - (p_size p - p_readp p)) with (p_writep p + k)
      by lia.
    destruct (Z.eqb_spec (p_count p + k) (p_size p - p_readp p)); [lia|].
    rewrite Eq. reflexivity.
Qed.

Lemma contiguous_write_reads_back_witness :
  exists q,
    pipe_write (writer 0) [x0a; x0b; x0c] 3 quiet tail8 =
      (Returned 3 q [],
       [MutexLock; CopyFromUser 2 0 3; MutexUnlock; WakeUp p_readq])
    /\ pipe_read (reader 0) 8 quiet q =
         (Returned 8 (set_count 0 (set_readp 5 q))
            [x01; x02; x03; x04; x05; x0a; x0b; x0c],
          [MutexLock; CopyToUser 5 3; CopyToUser 0 5; MutexUnlock;
           WakeUp p_writeq]).
Proof.
  eexists.
  apply (contiguous_write_reads_back
           (writer 0) (reader 0) quiet quiet [x0a; x0b; x0c] 3 tail8
           [x04; x05; x00; x00; x00; x01; x02; x03]);
    try reflexivity; try (unfold INT_MAX; simpl; lia).
Defined.

(** * The channel as the module leaves it to its users *)

(** How a read can end in its wait loop: an error with nothing delivered,
    or asleep on [p_readq]. *)
Lemma read_wait_stop_shape (nonblock : bool) (ws : list wake) :
  forall p o tr,
    read_wait nonblock ws p = (inr o, tr) ->
    match o with
    | Returned ret _ out => ret < 0 /\ out = []
    | Asleep q _ => q = p_readq
    | BadAccess _ _ => False
    end.
Proof.
  induction ws as [|w ws IH]; intros p o tr; rewrite read_wait_eq;
    destruct (negb (p_count p =? 0)); try discriminate;
    destruct nonblock;
    try (intros H; inversion H; subst; simpl; repeat split; fail).
  destruct w;
    try (intros H; inversion H; subst; simpl; repeat split; fail).
  destruct (read_wait false ws p0) as [r tr1] eqn:W.
  intros H; inversion H; subst. eapply IH; eauto.
Qed.

(** X9. From a channel just opened with a positive [pipe_size], no byte is
    ever transferred. After any number of completed calls, a read never
    delivers anything: it returns an error with nothing stored in the
    caller's buffer, or sleeps on [p_readq]. A write never stores anything:
    it returns 0, or [-ERESTARTSYS], and leaves the channel empty with both
    positions 0; it never returns [-EAGAIN] and never sleeps. No call copies
    outside the buffer. *)
Theorem no_byte_is_ever_transferred :
  forall (pipe_size : Z) (filp0 : file) (e0 : env) (pre p0 : pipe)
         (out0 : list byte) (tr0 : list event),
    0 < pipe_size ->
    pipe_open pipe_size filp0 e0 pre = (Returned 0 p0 out0, tr0) ->
    forall (p : pipe) (filp : file) (src : list byte) (count : Z) (e : env),
      reachable p0 p ->
      (forall s, In s (resumed (wakes e)) -> reachable p0 s) ->
      0 <= count ->
      (forall o tr,
          pipe_read filp count e p = (o, tr) ->
          match o with
          | Returned ret _ out => ret < 0 /\ out = []
          | Asleep q _ => q = p_readq
          | BadAccess _ _ => False
          end)
      /\
      (forall o tr,
          pipe_write filp src count e p = (o, tr) ->
          match o with
          | Returned ret q _ =>
              (ret = 0 \/ ret = - ERESTARTSYS) /\ idle pipe_size q
          | Asleep _ _ => False
          | BadAccess _ _ => False
          end).
Proof.
  intros pipe_size filp0 e0 pre p0 out0 tr0 Hpos HO p filp src count e R RS
         Hc.
  apply pipe_open_idle in HO.
  pose proof (reachable_idle pipe_size p0 HO p R) as I.
  split; intros o tr H.
  - unfold pipe_read in H. destruct (lock_intr e).
    { inversion H; subst. unfold ERESTARTSYS. split; [lia | reflexivity]. }
    destruct (read_wait _ (wakes e) p) as [[p1|o1] tr1] eqn:W.
    + exfalso. destruct (read_wait_entry _ _ _ _ _ W) as [[->|HI] Hne].
      * destruct I as [HC _]. contradiction.
      * destruct (reachable_idle pipe_size p0 HO p1 (RS _ HI)) as [HC _].
        contradiction.
    + inversion H; subst. apply (read_wait_stop_shape _ _ _ _ _ W).
  - unfold pipe_write in H. destruct (lock_intr e).
    { inversion H; subst. auto. }
    destruct I as (HC & HR & HW & HS).
    rewrite write_wait_ready in H by lia.
    rewrite (write_xfer_idle e src count pipe_size p) in H
      by (unfold idle; auto).
    inversion H; subst. unfold idle. auto.
Qed.

Lemma no_byte_is_ever_transferred_witness :
  (- EAGAIN < 0 /\ @nil byte = [])
  /\ ((0 = 0 \/ 0 = - ERESTARTSYS) /\ idle 8 (opened 8)).
Proof.
  destruct (no_byte_is_ever_transferred
              8 (rdwr 0) quiet pipe0 (opened 8) []
              [MutexLock; Kzalloc 8; MutexUnlock]
              ltac:(lia) eq_refl
              (opened 8) (rdwr O_NONBLOCK) bytes_1_5 5 quiet
              (reach_start (opened 8))
              (fun s (H : In s []) => match H with end)
              ltac:(lia)) as [HR HW].
  split.
  - apply (HR (Returned (- EAGAIN) (opened 8) []) [MutexLock; MutexUnlock]).
    reflexivity.
  - apply (HW (Returned 0 (opened 8) [])
              [MutexLock; CopyFromUser 0 0 0; MutexUnlock; WakeUp p_readq]).
    reflexivity.
Defined.

(** * Module load and unload *)

(** ** Device numbers *)

Lemma lor_shiftl_add (ma mi : Z) :
  0 <= mi < 2 ^ MINORBITS ->
  Z.lor (Z.shiftl ma MINORBITS) mi = ma * 2 ^ MINORBITS + mi.
Proof.
  intros Hmi. rewrite <- Z.shiftl_mul_pow2 by (unfold MINORBITS; lia).
  rewrite <- Z.add_lor_land.
  assert (E : Z.land (Z.shiftl ma MINORBITS) mi = 0).
  { apply Z.bits_inj'. intros n Hn.
    rewrite Z.land_spec, Z.bits_0.
    destruct (Z_lt_le_dec n MINORBITS) as [L|L].
    - rewrite Z.shiftl_spec_low by exact L. reflexivity.
    - destruct (Z.eq_dec mi 0) as [->|N].
      + rewrite Z.bits_0. apply andb_false_r.
      + assert (G : Z.log2 mi < MINORBITS) by (apply Z.log2_lt_pow2; lia).
        rewrite (Z.bits_above_log2 mi n) by lia.
        apply andb_false_r. }
  rewrite E. lia.
Qed.

(** [MKDEV] of a 12-bit major and a 20-bit minor is the major above the
    minor. *)
Lemma MKDEV_value (ma mi : Z) :
  0 <= ma < 2 ^ 12 -> 0 <= mi < 2 ^ MINORBITS ->
  MKDEV ma mi = ma * 2 ^ MINORBITS + mi.
Proof.
  intros Hma Hmi. unfold MKDEV, to_u32. rewrite lor_shiftl_add by exact Hmi.
  apply Z.mod_small. unfold MINORBITS in *.
  change (2 ^ 12) with 4096 in *. change (2 ^ 20) with 1048576 in *.
  change (2 ^ 32) with 4294967296. lia.
Qed.

Lemma MAJOR_MKDEV (ma mi : Z) :
  0 <= ma < 2 ^ 12 -> 0 <= mi < 2 ^ MINORBITS ->
  MAJOR (MKDEV ma mi) = ma.
Proof.
  intros Hma Hmi. rewrite MKDEV_value by assumption. unfold MAJOR.
  rewrite Z.shiftr_div_pow2 by (unfold MINORBITS; lia).
  rewrite Z.div_add_l by (unfold MINORBITS; lia).
  rewrite Z.div_small by exact Hmi. lia.
Qed.

(** The region [pipe_mod_exit] and the failure path of [pipe_mod_init]
    name, [MKDEV (pipe_major, pipe_minor)] with the major taken from the
    number granted, is the region granted. *)
Lemma granted_region_roundtrip (ma mi : Z) :
  0 <= ma < 2 ^ 12 -> 0 <= mi < 2 ^ MINORBITS ->
  MKDEV (to_int (MAJOR (to_u32 (MKDEV ma mi)))) mi = to_u32 (MKDEV ma mi).
Proof.
  intros Hma Hmi.
  assert (U : to_u32 (MKDEV ma mi) = MKDEV ma mi).
  { unfold MKDEV, to_u32. apply Z.mod_mod. lia. }
  rewrite U, MAJOR_MKDEV by assumption.
  rewrite to_int_id; [reflexivity|].
  change (2 ^ 12) with 4096 in *. int_ranges. lia.
Qed.

(** ** What the loops do *)

Lemma in_indices (n i : Z) : In i (indices n) -> 0 <= i < n.
Proof.
  unfold indices. intros H. apply in_map_iff in H.
  destruct H as (j & <- & Hj). apply in_seq in Hj. lia.
Qed.

Lemma length_indices (n : Z) : length (indices n) = Z.to_nat n.
Proof. unfold indices. rewrite length_map, length_seq. reflexivity. Qed.

Lemma add_device_trace (k : kenv) (major minor : Z) (l : list Z) :
  let tr := flat_map (add_device k major minor) l in
  added tr = map (fun i => (i, MKDEV major (to_int (minor + i)))) l
  /\ granted tr = []
  /\ released tr = [].
Proof.
  cbv zeta. induction l as [|i l (IA & IG & IR)]; [repeat split|].
  unfold added, granted, released in *. cbn [flat_map map].
  rewrite !flat_map_app, IA, IG, IR. unfold add_device.
  destruct (add_ret k i =? 0); repeat split.
Qed.

Lemma del_device_trace (ps : list pipe) (l : list Z) :
  let tr := flat_map (del_device ps) l in
  deleted tr = l /\ freed tr = l /\ released tr = [].
Proof.
  cbv zeta. induction l as [|i l (ID & IF & IR)]; [repeat split|].
  unfold deleted, freed, released in *. cbn [flat_map].
  rewrite !flat_map_app, ID, IF, IR. repeat split.
Qed.

(** ** A load that succeeds *)

(** What [pipe_mod_init] has done when it returns 0. *)
Lemma pipe_mod_init_zero (sizeof_pipe : Z) (k : kenv) (m m' : pipemod)
      (tr : list kevent) :
  pipe_mod_init sizeof_pipe k m = (0, m', tr) ->
  let major := if negb (pipe_major m =? 0) then pipe_major m
               else to_int (MAJOR (to_u32 (region_dev k))) in
  let base := if negb (pipe_major m =? 0)
              then MKDEV (pipe_major m) (pipe_minor m)
              else to_u32 (region_dev k) in
  region_ret k = 0
  /\ m' = mkpipemod (nr_pipes m) major (pipe_minor m)
                    (Some (repeat pipe0 (Z.to_nat (nr_pipes m))))
  /\ granted tr = [(base, to_u32 (nr_pipes m))]
  /\ released tr = []
  /\ added tr = map (fun i => (i, MKDEV major (to_int (pipe_minor m + i))))
                    (indices (nr_pipes m)).
Proof.
  unfold pipe_mod_init.
  destruct (Z.eqb_spec (region_ret k) 0) as [E|E].
  2:{ destruct (negb (pipe_major m =? 0)); simpl;
      intros H; inversion H; contradiction. }
  rewrite E.
  destruct (negb (pipe_major m =? 0)); cbn [negb Z.eqb];
    (destruct (kzalloc _ _); [|intros H; inversion H]);
    intros H; inversion H; subst; clear H; cbv zeta;
    match goal with
    | |- context [flat_map (add_device ?k ?ma ?mi) ?l] =>
        destruct (add_device_trace k ma mi l) as (IA & IG & IR)
    end;
    unfold granted, released, added in *; cbn [flat_map app Z.eqb];
    rewrite IA, IG, IR; repeat split.
Qed.

(** X11. When the device region is obtained and the device array is
    allocated, [pipe_mod_init] returns 0 whatever [cdev_add] returns for
    any device: a failed [cdev_add] is only logged. It leaves [nr_pipes]
    zeroed devices, holds exactly one region of [nr_pipes] numbers, and has
    passed every device [i] to [cdev_add], in order, under the number
    [base + i] of that region. The major fits 12 bits and the minors
    [pipe_minor .. pipe_minor + nr_pipes) fit 20 bits. *)
Theorem load_adds_every_device :
  forall (sizeof_pipe : Z) (k : kenv) (m : pipemod),
    region_ret k = 0 ->
    pipes_fail k = false ->
    0 <= sizeof_pipe * nr_pipes m < 2 ^ 63 ->
    0 <= nr_pipes m ->
    0 <= pipe_major m < 2 ^ 12 ->
    0 <= pipe_minor m < 2 ^ MINORBITS ->
    pipe_minor m + nr_pipes m <= 2 ^ MINORBITS ->
    (pipe_major m = 0 -> sane_grant k m) ->
    exists m' tr base,
      pipe_mod_init sizeof_pipe k m = (0, m', tr)
      /\ pipes m' = Some (repeat pipe0 (Z.to_nat (nr_pipes m)))
      /\ nr_pipes m' = nr_pipes m
      /\ pipe_minor m' = pipe_minor m
      /\ MKDEV (pipe_major m') (pipe_minor m') = base
      /\ granted tr = [(base, nr_pipes m)]
      /\ released tr = []
      /\ added tr = map (fun i => (i, base + i)) (indices (nr_pipes m)).
Proof.
  intros sizeof_pipe k m HR HF Hb Hn Hma Hmi Hfit HG.
  assert (Un : to_u32 (nr_pipes m) = nr_pipes m).
  { unfold to_u32. apply Z.mod_small. unfold MINORBITS in *.
    change (2 ^ 20) with 1048576 in *. change (2 ^ 32) with 4294967296. lia. }
  destruct (pipe_mod_init sizeof_pipe k m) as [[ret m'] tr] eqn:I.
  assert (R0 : ret = 0).
  { revert I. unfold pipe_mod_init. rewrite HR, HF.
    rewrite (to_size_t_id (nr_pipes m))
      by (unfold MINORBITS in *; change (2 ^ 20) with 1048576 in *;
          int_ranges; lia).
    rewrite (to_size_t_id (sizeof_pipe * nr_pipes m)) by (int_ranges; lia).
    unfold kzalloc.
    destruct (Z.leb_spec (2 ^ 63) (sizeof_pipe * nr_pipes m)) as [G|G];
      [lia|].
    destruct (negb (pipe_major m =? 0)); simpl;
      intros E; inversion E; reflexivity. }
  subst ret.
  destruct (pipe_mod_init_zero _ _ _ _ _ I) as (_ & Em & EG & ER & EA).
  assert (Major : exists M,
             0 <= M < 2 ^ 12
             /\ (if negb (pipe_major m =? 0) then pipe_major m
                 else to_int (MAJOR (to_u32 (region_dev k)))) = M
             /\ (if negb (pipe_major m =? 0)
                 then MKDEV (pipe_major m) (pipe_minor m)
                 else to_u32 (region_dev k)) = MKDEV M (pipe_minor m)).
  { destruct (Z.eqb_spec (pipe_major m) 0) as [Z0|Z0]; simpl.
    - destruct (HG Z0) as (M & HM & ->). exists M.
      assert (U : to_u32 (MKDEV M (pipe_minor m)) = MKDEV M (pipe_minor m)).
      { unfold MKDEV, to_u32. apply Z.mod_mod. lia. }
      rewrite U, MAJOR_MKDEV by assumption.
      rewrite to_int_id by (change (2 ^ 12) with 4096 in *; int_ranges; lia).
      auto.
    - exists (pipe_major m). auto. }
  destruct Major as (M & HM & E1 & E2).
  rewrite E1 in Em, EA. rewrite E2, Un in EG.
  exists m', tr, (MKDEV M (pipe_minor m)).
  rewrite Em. cbn [pipes nr_pipes pipe_minor pipe_major].
  repeat split; try assumption.
  rewrite EA. apply map_ext_in. intros i Hi. apply in_indices in Hi.
  f_equal.
  rewrite to_int_id
    by (unfold MINORBITS in *; change (2 ^ 20) with 1048576 in *;
        int_ranges; lia).
  rewrite !MKDEV_value by lia. lia.
Qed.

Lemma load_adds_every_device_witness :
  exists m' tr base,
    pipe_mod_init 256 (mkkenv 0 (MKDEV 240 0) false (fun _ => -16))
                  (mkpipemod 2 0 0 None) = (0, m', tr)
    /\ pipes m' = Some [pipe0; pipe0]
    /\ granted tr = [(base, 2)]
    /\ added tr = [(0, base + 0); (1, base + 1)].
Proof.
  destruct (load_adds_every_device
              256 (mkkenv 0 (MKDEV 240 0) false (fun _ => -16))
              (mkpipemod 2 0 0 None))
    as (m' & tr & base & H1 & H2 & _ & _ & _ & H3 & _ & H4);
    try reflexivity; try (unfold MINORBITS; simpl; lia).
  - intros _. exists 240. split; [lia | reflexivity].
  - exists m', tr, base. auto.
Defined.

(** X12. Unloading undoes loading. After [pipe_mod_init] returned 0, and
    whatever the sessions did to the devices since, [pipe_mod_exit] gives
    back exactly the region the load obtained, passes to [cdev_del] exactly
    the devices the load passed to [cdev_add], in the same order, frees
    the buffer of every device and then the device array. With a dynamic
    major the kernel granted the base minor it was asked for. *)
Theorem unload_undoes_load :
  forall (sizeof_pipe : Z) (k : kenv) (m m' : pipemod) (tr : list kevent)
         (ps : list pipe),
    pipe_mod_init sizeof_pipe k m = (0, m', tr) ->
    0 <= pipe_minor m < 2 ^ MINORBITS ->
    (pipe_major m = 0 -> sane_grant k m) ->
    length ps = Z.to_nat (nr_pipes m) ->
    exists tr',
      pipe_mod_exit (with_pipes ps m') = Some tr'
      /\ released tr' = granted tr
      /\ deleted tr' = map fst (added tr)
      /\ freed tr' = indices (nr_pipes m)
      /\ exists pre, tr' = pre ++ [KfreePipes]
                           ++ map (fun r => UnregisterRegion (fst r) (snd r))
                                  (granted tr).
Proof.
  intros sizeof_pipe k m m' tr ps I Hmi HG HL.
  destruct (pipe_mod_init_zero _ _ _ _ _ I) as (_ & Em & EG & ER & EA).
  cbv zeta in Em, EG, EA.
  assert (B : MKDEV (pipe_major m') (pipe_minor m')
              = (if negb (pipe_major m =? 0)
                 then MKDEV (pipe_major m) (pipe_minor m)
                 else to_u32 (region_dev k))).
  { rewrite Em. cbn [pipe_major pipe_minor].
    destruct (Z.eqb_spec (pipe_major m) 0) as [Z0|Z0]; simpl; [|reflexivity].
    destruct (HG Z0) as (M & HM & ->).
    apply granted_region_roundtrip; assumption. }
  unfold pipe_mod_exit, with_pipes. cbn [pipes nr_pipes pipe_major pipe_minor].
  assert (En : nr_pipes m' = nr_pipes m) by (rewrite Em; reflexivity).
  rewrite B, !En.
  destruct (Z.ltb_spec (Z.of_nat (length ps)) (nr_pipes m)) as [L|L]; [lia|].
  destruct (del_device_trace ps (indices (nr_pipes m))) as (ED & EF & ERL).
  cbv zeta in ED, EF, ERL.
  eexists. split; [reflexivity|].
  assert (RA : forall a b, released (a ++ b) = released a ++ released b)
    by (intros; apply flat_map_app).
  assert (DA : forall a b, deleted (a ++ b) = deleted a ++ deleted b)
    by (intros; apply flat_map_app).
  assert (FA : forall a b, freed (a ++ b) = freed a ++ freed b)
    by (intros; apply flat_map_app).
  rewrite RA, DA, FA, ED, EF, ERL, EG, EA, map_map. cbn.
  rewrite map_id, !app_nil_r. repeat split.
  eexists. reflexivity.
Qed.

Lemma unload_undoes_load_witness :
  exists tr',
    pipe_mod_exit
      (with_pipes [opened 8; pipe0]
         (mkpipemod 2 240 0 (Some [pipe0; pipe0]))) = Some tr'
    /\ released tr' = [(MKDEV 240 0, 2)]
    /\ deleted tr' = [0; 1]
    /\ freed tr' = [0; 1].
Proof.
  destruct (unload_undoes_load
              256 (mkkenv 0 (MKDEV 240 0) false (fun _ => -16))
              (mkpipemod 2 0 0 None)
              (mkpipemod 2 240 0 (Some [pipe0; pipe0]))
              [AllocRegion 0 2 (MKDEV 240 0) 0; KzallocPipes 512 true;
               InitDevice 0; CdevAdd 0 (MKDEV 240 0) (-16); Printk (NoAdd 0);
               InitDevice 1; CdevAdd 1 (MKDEV 240 1) (-16); Printk (NoAdd 1)]
              [opened 8; pipe0])
    as (tr' & H1 & H2 & H3 & H4 & _).
  - reflexivity.
  - unfold MINORBITS. simpl. lia.
  - intros _. exists 240. split; [lia | reflexivity].
  - reflexivity.
  - exists tr'. auto.
Defined.

(** ** A load that fails *)

(** X10. A load that fails leaks nothing. When [pipe_mod_init] returns
    non-zero it returns what the region request returned, or [-ENOMEM] when
    the device array could not be allocated; no device array is left, no
    device was passed to [cdev_add], and every region obtained has been
    given back: none when the request failed, the one obtained when the
    allocation failed. With a dynamic major the kernel granted the base
    minor it was asked for. *)
Theorem failed_load_leaks_nothing :
  forall (sizeof_pipe : Z) (k : kenv) (m m' : pipemod) (ret : Z)
         (tr : list kevent),
    pipe_mod_init sizeof_pipe k m = (ret, m', tr) ->
    ret <> 0 ->
    pipes m = None ->
    0 <= pipe_minor m < 2 ^ MINORBITS ->
    (pipe_major m = 0 -> region_ret k = 0 -> sane_grant k m) ->
    (ret = region_ret k \/ ret = - ENOMEM)
    /\ pipes m' = None
    /\ added tr = []
    /\ released tr = granted tr.
Proof.
  intros sizeof_pipe k m m' ret tr I Hret HP Hmi HG.
  unfold pipe_mod_init in I.
  destruct (Z.eqb_spec (region_ret k) 0) as [E|E].
  - rewrite E in I.
    destruct (Z.eqb_spec (pipe_major m) 0) as [Z0|Z0]; cbn [negb Z.eqb] in I;
      (destruct (kzalloc _ _); [inversion I; subst; contradiction|]);
      inversion I; subst; clear I;
      unfold granted, released, added; cbn [flat_map app pipes Z.eqb];
      repeat split; auto.
    destruct (HG Z0 E) as (M & HM & ->).
    rewrite granted_region_roundtrip by assumption. reflexivity.
  - destruct (negb (pipe_major m =? 0)); cbn [negb] in I;
      destruct (region_ret k =? 0) eqn:Z1;
      try (apply Z.eqb_eq in Z1; contradiction);
      cbn [negb] in I; inversion I; subst; clear I;
      unfold granted, released, added; cbn; rewrite ?Z1; cbn; auto.
Qed.

Lemma failed_load_leaks_nothing_witness :
  pipes (mkpipemod 2 240 0 None) = None
  /\ released [AllocRegion 0 2 (MKDEV 240 0) 0; KzallocPipes 512 false;
               Printk NoSpace; UnregisterRegion (MKDEV 240 0) 2]
     = granted [AllocRegion 0 2 (MKDEV 240 0) 0; KzallocPipes 512 false;
                Printk NoSpace; UnregisterRegion (MKDEV 240 0) 2].
Proof.
  destruct (failed_load_leaks_nothing
              256 (mkkenv 0 (MKDEV 240 0) true (fun _ => 0))
              (mkpipemod 2 0 0 None) (mkpipemod 2 240 0 None) (- ENOMEM)
              [AllocRegion 0 2 (MKDEV 240 0) 0; KzallocPipes 512 false;
               Printk NoSpace; UnregisterRegion (MKDEV 240 0) 2])
    as (_ & H1 & _ & H2).
  - reflexivity.
  - unfold ENOMEM. lia.
  - reflexivity.
  - unfold MINORBITS. simpl. lia.
  - intros _ _. exists 240. split; [lia | reflexivity].
  - split; assumption.
Defined.

(** * Sleeping and waking *)

Lemma read_wait_resumes (ws rest : list wake) (s : pipe) :
  forall p,
    p_count p = 0 -> still_empty ws = true -> p_count s <> 0 ->
    exists tr, read_wait false (ws ++ Resume s :: rest) p = (inl s, tr).
Proof.
  induction ws as [|w ws IH]; intros p HC HS Hs; rewrite read_wait_eq, HC;
    simpl.
  - rewrite read_wait_ready by exact Hs. eauto.
  - destruct w; simpl in HS; try discriminate.
    apply andb_prop in HS. destruct HS as [H1 H2]. apply Z.eqb_eq in H1.
    destruct (IH p0 H1 H2 Hs) as (tr & ->). eauto.
Qed.

Lemma write_wait_resumes (ws rest : list wake) (s : pipe) :
  forall p,
    p_count p = p_size p -> still_full ws = true -> p_count s <> p_size s ->
    exists tr, write_wait false (ws ++ Resume s :: rest) p = (inl s, tr).
Proof.
  induction ws as [|w ws IH]; intros p HC HS Hs; rewrite write_wait_eq, HC,
    Z.eqb_refl; simpl.
  - rewrite write_wait_ready by exact Hs. eauto.
  - destruct w; simpl in HS; try discriminate.
    apply andb_prop in HS. destruct HS as [H1 H2]. apply Z.eqb_eq in H1.
    destruct (IH p0 H1 H2 Hs) as (tr & ->). eauto.
Qed.

(** X13. The wait loops recheck their condition after every wake-up. A
    blocking read that finds the channel empty, is woken any number of times
    with the channel still empty, and is then handed a channel [s] that
    holds something, ends exactly as a read called on [s] that did not have
    to wait: same return value, same channel left, same bytes delivered.
    Likewise a blocking write that finds the channel full ends as a write
    called on the first channel it is handed that is not full. *)
Theorem wait_loops_recheck_after_wakeup :
  forall (filp : file) (src : list byte) (count : Z) (e : env)
         (ws rest : list wake) (s p : pipe),
    lock_intr e = false ->
    has_flag (f_flags filp) O_NONBLOCK = false ->
    wakes e = ws ++ Resume s :: rest ->
    (p_count p = 0 -> still_empty ws = true -> p_count s <> 0 ->
     fst (pipe_read filp count e p)
     = fst (pipe_read filp count (undisturbed e) s))
    /\
    (p_count p = p_size p -> still_full ws = true ->
     p_count s <> p_size s ->
     fst (pipe_write filp src count e p)
     = fst (pipe_write filp src count (undisturbed e) s)).
Proof.
  intros filp src count e ws rest s p HL HN HW. split; intros HC HS Hs.
  - unfold pipe_read. rewrite HL, HN, HW. cbn [undisturbed lock_intr wakes].
    destruct (read_wait_resumes ws rest s p HC HS Hs) as (tr & ->).
    rewrite read_wait_ready by exact Hs.
    replace (read_xfer (undisturbed e) count s) with (read_xfer e count s)
      by reflexivity.
    destruct (read_xfer e count s). reflexivity.
  - unfold pipe_write. rewrite HL, HN, HW. cbn [undisturbed lock_intr wakes].
    destruct (write_wait_resumes ws rest s p HC HS Hs) as (tr & ->).
    rewrite write_wait_ready by exact Hs.
    replace (write_xfer (undisturbed e) src count s)
      with (write_xfer e src count s) by reflexivity.
    destruct (write_xfer e src count s). reflexivity.
Qed.

Lemma wait_loops_recheck_after_wakeup_witness :
  fst (pipe_read (reader 0) 3
         (mkenv false false [Resume (opened 8); Resume split8; Signal] 0 0)
         (opened 8))
  = fst (pipe_read (reader 0) 3 quiet split8)
  /\ fst (pipe_write (writer 0) bytes_1_4 4
            (mkenv false false [Resume full8; Resume split8] 0 0) full8)
     = fst (pipe_write (writer 0) bytes_1_4 4 quiet split8).
Proof.
  split.
  - apply (wait_loops_recheck_after_wakeup
             (reader 0) [] 3
             (mkenv false false [Resume (opened 8); Resume split8; Signal] 0 0)
             [Resume (opened 8)] [Signal] split8 (opened 8));
      try reflexivity. simpl. lia.
  - apply (wait_loops_recheck_after_wakeup
             (writer 0) bytes_1_4 4
             (mkenv false false [Resume full8; Resume split8] 0 0)
             [Resume full8] [] split8 full8);
      try reflexivity. simpl. lia.
Defined.

(** A write that returns a byte count ends by releasing the lock and then
    waking [p_readq]. *)
Lemma write_xfer_wakes_readq (e : env) (src : list byte) (count : Z)
      (p : pipe) :
  forall ret q out tr,
    write_xfer e src count p = (Returned ret q out, tr) ->
    0 <= ret ->
    exists pre, tr = pre ++ [MutexUnlock; WakeUp p_readq].
Proof.
  intros ret q out tr. unfold write_xfer, write_done, xfer_fail.
  repeat match goal with
         | |- context [if ?c then _ else _] => destruct c
         | |- context [match copy_from_user ?a ?b ?c ?d ?f ?g with _ => _ end] =>
             destruct (copy_from_user a b c d f g)
         end;
    intros H; inversion H; subst; clear H; intros Hret;
    try (unfold EFAULT in Hret; lia);
    match goal with
    | |- exists pre, ?l = _ => exists (removelast (removelast l))
    end; reflexivity.
Qed.

Lemma read_wait_sleeps_on_readq (nonblock : bool) (ws : list wake) :
  forall p r tr,
    read_wait nonblock ws p = (r, tr) -> sleeps_on p_writeq tr = false.
Proof.
  induction ws as [|w ws IH]; intros p r tr; rewrite read_wait_eq;
    destruct (negb (p_count p =? 0));
    try (intros H; inversion H; reflexivity);
    destruct nonblock; try (intros H; inversion H; reflexivity).
  destruct w; try (intros H; inversion H; reflexivity).
  destruct (read_wait false ws p0) as [r1 tr1] eqn:W.
  intros H; inversion H; subst. simpl. eapply IH; eauto.
Qed.

Lemma read_xfer_never_sleeps (e : env) (count : Z) (p : pipe) (q : waitq) :
  sleeps_on q (snd (read_xfer e count p)) = false.
Proof.
  unfold read_xfer, read_done, xfer_fail.
  repeat match goal with
         | |- context [if ?c then _ else _] => destruct c
         | |- context [match copy_to_user ?a ?b ?c ?d with _ => _ end] =>
             destruct (copy_to_user a b c d)
         end; reflexivity.
Qed.

(** X14. Writers wake the readers. A read that has to wait sleeps on
    [p_readq] and on no other queue, and every write that returns a byte
    count, 0 included, ends by releasing the lock and then waking
    [p_readq]: the queue the sleeping readers are on. *)
Theorem write_wakes_the_queue_readers_sleep_on :
  forall (filp : file) (src : list byte) (count : Z) (e : env) (p : pipe),
    sleeps_on p_writeq (snd (pipe_read filp count e p)) = false
    /\ (forall s tr, pipe_read filp count e p = (Asleep p_readq s, tr) ->
                     sleeps_on p_readq tr = true)
    /\ (forall ret q out tr,
           pipe_write filp src count e p = (Returned ret q out, tr) ->
           0 <= ret ->
           exists pre, tr = pre ++ [MutexUnlock; WakeUp p_readq]).
Proof.
  intros filp src count e p. split; [|split].
  - unfold pipe_read. destruct (lock_intr e); [reflexivity|].
    destruct (read_wait _ (wakes e) p) as [[p0|o] tr0] eqn:W.
    + pose proof (read_xfer_never_sleeps e count p0 p_writeq) as X.
      destruct (read_xfer e count p0) as [o tr1]. simpl in *.
      rewrite sleeps_on_app, (read_wait_sleeps_on_readq _ _ _ _ _ W).
      exact X.
    + simpl. exact (read_wait_sleeps_on_readq _ _ _ _ _ W).
  - intros s tr. unfold pipe_read. destruct (lock_intr e); [discriminate|].
    destruct (read_wait _ (wakes e) p) as [[p0|o] tr0] eqn:W.
    + destruct (read_xfer e count p0) as [o tr1] eqn:X.
      intros H; inversion H; subst. exfalso.
      revert X. unfold read_xfer, read_done, xfer_fail.
      repeat match goal with
             | |- context [if ?c then _ else _] => destruct c
             | |- context [match copy_to_user ?a ?b ?c ?d with _ => _ end] =>
                 destruct (copy_to_user a b c d)
             end; discriminate.
    + intros H; inversion H; subst. clear H. simpl.
      revert p W. generalize (wakes e) as ws.
      generalize (has_flag (f_flags filp) O_NONBLOCK) as nb.
      intros nb ws. revert tr0.
      induction ws as [|w ws IH]; intros tr0 p; rewrite read_wait_eq;
        destruct (negb (p_count p =? 0)); try discriminate;
        destruct nb; try discriminate.
      * intros H; inversion H; reflexivity.
      * destruct w; try discriminate.
        destruct (read_wait false ws p0) as [r tr1] eqn:W1.
        intros H; inversion H; subst. reflexivity.
  - intros ret q out tr. unfold pipe_write. destruct (lock_intr e).
    { intros H; inversion H; subst. unfold ERESTARTSYS. lia. }
    destruct (write_wait _ (wakes e) p) as [[p0|o] tr0] eqn:W.
    + destruct (write_xfer e src count p0) as [o1 tr1] eqn:X.
      intros H Hret; inversion H; subst.
      destruct (write_xfer_wakes_readq _ _ _ _ _ _ _ _ X Hret) as (pre & ->).
      exists (MutexLock :: tr0 ++ pre). simpl. rewrite <- app_assoc.
      reflexivity.
    + intros H Hret; inversion H; subst.
      apply write_wait_stop_negative in W. lia.
Qed.

Lemma write_wakes_the_queue_readers_sleep_on_witness :
  sleeps_on p_readq (snd (pipe_read (reader 0) 3 quiet (opened 8))) = true
  /\ exists pre,
      snd (pipe_write (writer 0) bytes_1_4 4 quiet split8)
      = pre ++ [MutexUnlock; WakeUp p_readq].
Proof.
  destruct (write_wakes_the_queue_readers_sleep_on
              (reader 0) [] 3 quiet (opened 8)) as (_ & HS & _).
  destruct (write_wakes_the_queue_readers_sleep_on
              (writer 0) bytes_1_4 4 quiet split8) as (_ & _ & HW).
  split.
  - apply (HS (opened 8)). reflexivity.
  - apply (HW 4 after_split8 []). reflexivity. lia.
Defined.
